(** * iBridges metadata: a shallow embedding of [ibridges/meta.py] and
      [ibridges/export_metadata.py]

    The development follows the Python sources method by method.

    - [Re] is the fragment of Python's [re] module that the blacklist
      patterns of [meta.py] use ([re.match] on literal characters, [^], [.]
      and the postfix [*]).
    - The remote item (python-irodsclient's data object / collection and its
      [metadata] manager) is state that every method of [MetaData] threads
      explicitly; Python exceptions are the left summand of the result.
    - [get_subcolls] and [export_metadata_to_dict] are the recursive export. *)

From Stdlib Require Import String Ascii List Bool Arith Lia.
From Stdlib Require Import NArith Sorted Permutation.
Import ListNotations.
Open Scope string_scope.

(* ================================================================== *)
(** ** Regular expressions: the fragment of [re] used for blacklists *)
(* ================================================================== *)

Module Re.

(** One position of a pattern: [^], a literal character, or [.]. *)
Inductive atom : Type :=
| Bol
| Chr (c : ascii)
| AnyChr.

(** A pattern is a sequence of atoms, each possibly under a postfix [*]. *)
Inductive piece : Type :=
| One (a : atom)
| Many (a : atom).

Definition pattern : Type := list piece.

Definition metachar (c : ascii) : bool :=
  existsb (Ascii.eqb c)
    ["\"; "["; "]"; "("; ")"; "+"; "?"; "{"; "}"; "|"; "$"]%char.

(** [re.compile] on the fragment, reading the pattern right to left so that
    a [*] applies to the atom before it.  [None] is a pattern outside the
    fragment (or one that [re] rejects: a [*] with nothing to repeat). *)
Fixpoint compile_rev (cs : list ascii) : option pattern :=
  match cs with
  | [] => Some []
  | "*"%char :: cs' =>
      match cs' with
      | [] => None
      | c :: cs'' =>
          if (Ascii.eqb c "*" || Ascii.eqb c "^" || metachar c)%bool then None
          else
            match compile_rev cs'' with
            | Some p =>
                Some (Many (if Ascii.eqb c "." then AnyChr else Chr c) :: p)
            | None => None
            end
      end
  | c :: cs' =>
      if metachar c then None
      else
        match compile_rev cs' with
        | Some p =>
            Some (One (if Ascii.eqb c "^" then Bol
                       else if Ascii.eqb c "." then AnyChr
                       else Chr c) :: p)
        | None => None
        end
  end.

Definition compile (pat : string) : option pattern :=
  option_map (@rev piece) (compile_rev (rev (list_ascii_of_string pat))).

(** Does the atom accept character [c]?  ([.] does not match a newline.) *)
Definition accepts (a : atom) (c : ascii) : bool :=
  match a with
  | Bol => false
  | Chr c' => Ascii.eqb c' c
  | AnyChr => negb (Ascii.eqb c "010")
  end.

(** [a*] followed by the continuation [k]: consume zero or more accepted
    characters, then continue. *)
Fixpoint star (a : atom) (k : string -> bool) (s : string) : bool :=
  k s ||
  match s with
  | String c s' => accepts a c && star a k s'
  | EmptyString => false
  end.

(** Matching from a position of the subject; [bol] tells whether that
    position is the beginning of the string.  The match may end anywhere:
    [re.match] only anchors the start. *)
Fixpoint match_here (p : pattern) (bol : bool) (s : string) : bool :=
  match p with
  | [] => true
  | One Bol :: p' => bol && match_here p' bol s
  | One a :: p' =>
      match s with
      | String c s' => accepts a c && match_here p' false s'
      | EmptyString => false
      end
  | Many a :: p' =>
      match_here p' bol s ||
      match s with
      | String c s' => accepts a c && star a (match_here p' false) s'
      | EmptyString => false
      end
  end.

(** [re.match(p, s) is not None]. *)
Definition re_match (p : pattern) (s : string) : bool := match_here p true s.

End Re.

(* ================================================================== *)
(** ** Data model *)
(* ================================================================== *)

(** An AVU as python-irodsclient lists it ([irods.meta.iRODSMeta]); an AVU
    without units is listed with [units = None]. *)
Record iRODSMeta : Type := mkMeta {
  name  : string;
  value : string;
  units : option string
}.

Inductive item_kind : Type :=
| DataObject
| Collection
| OtherItem.

#[local] Set Warnings "-register-all".

(** The remote item behind a [MetaData] view.  [access] tells whether the
    catalog lets the session modify the item's metadata; [data_objects] and
    [subcollections] are empty unless the item is a collection. *)
Inductive Item : Type := mkItem {
  item_name      : string;
  item_id        : nat;
  item_path      : string;
  item_kind_of   : item_kind;
  checksum       : string;
  metadata       : list iRODSMeta;
  access         : bool;
  data_objects   : list Item;
  subcollections : list Item
}.

Definition with_metadata (it : Item) (l : list iRODSMeta) : Item :=
  mkItem (item_name it) (item_id it) (item_path it) (item_kind_of it)
         (checksum it) l (access it) (data_objects it) (subcollections it).

(** Exceptions of python-irodsclient that [meta.py] handles or lets through. *)
Inductive irods_exception : Type :=
| CAT_NO_ACCESS_PERMISSION
| CAT_SUCCESS_BUT_WITH_NO_INFO
| CATALOG_ALREADY_HAS_ITEM_BY_THAT_NAME.

(** The [ValueError]s of [meta.py], told apart by their message. *)
Inductive value_error : Type :=
| MetadataAlreadyPresent      (* "ADD META: Metadata already present" *)
| KeyMustNotStartWith         (* "ADD META: Key must not start with ..." *)
| NoNewValueOrUnit            (* "No new value or new unit set." *)
| NewValueEmpty               (* "New value cannot be empty." *)
| DoesNotExist                (* "... does not exist." *)
| InsufficientPermission      (* "Cannot delete metadata due to insufficient permission ..." *)
| NotCollectionOrDataObject.  (* "Not a data collection or data object: ..." *)

Inductive exn : Type :=
| ValueError (why : value_error)
| PermissionError
| KeyError
| TypeError
| AttributeError
| IrodsException (e : irods_exception).

Definition is_ValueError (e : exn) : bool :=
  match e with ValueError _ => true | _ => false end.

(** The view: [self.item] and [self.blacklist] (a compiled pattern, or
    [None]). *)
Record MetaData : Type := mkMetaData {
  item      : Item;
  blacklist : option Re.pattern
}.

(** The default value of the [blacklist] parameter of [MetaData.__init__],
    the pattern [r"^org_*"]. *)
Definition default_blacklist : Re.pattern :=
  Eval cbv in
    match Re.compile "^org_*" with Some p => p | None => [] end.

Definition MetaData_init (it : Item) : MetaData :=
  mkMetaData it (Some default_blacklist).

Definition with_item (self : MetaData) (it : Item) : MetaData :=
  mkMetaData it (blacklist self).

(* ================================================================== *)
(** ** A state-and-exception monad over the view *)
(* ================================================================== *)

Definition result (A : Type) : Type := (exn + A)%type.

Definition M (A : Type) : Type := MetaData -> result A * MetaData.

Definition ret {A} (a : A) : M A := fun self => (inr a, self).

Definition raise {A} (e : exn) : M A := fun self => (inl e, self).

Definition bind {A B} (c : M A) (k : A -> M B) : M B :=
  fun self =>
    match c self with
    | (inr a, self') => k a self'
    | (inl e, self') => (inl e, self')
    end.

(** [try: c except <handler>]: [handler e = Some c'] when an [except] clause
    catches [e] and runs [c']. *)
Definition try_except {A} (c : M A) (handler : exn -> option (M A)) : M A :=
  fun self =>
    match c self with
    | (inr a, self') => (inr a, self')
    | (inl e, self') =>
        match handler e with
        | Some c' => c' self'
        | None => (inl e, self')
        end
    end.

Declare Scope py_scope.
Delimit Scope py_scope with py.
Notation "x <- c ;; k" := (bind c (fun x => k))
  (at level 100, c at next level, right associativity) : py_scope.
Notation "c ;;; k" := (bind c (fun _ => k))
  (at level 100, right associativity) : py_scope.
Open Scope py_scope.

(** [for x in l: body x], with [l] evaluated before the loop starts. *)
Fixpoint for_each {A} (l : list A) (body : A -> M unit) : M unit :=
  match l with
  | [] => ret tt
  | x :: l' => body x ;;; for_each l' body
  end.

(** Lifting a computation that only reads the view. *)
Definition read {A} (f : MetaData -> result A) : M A :=
  fun self => (f self, self).

(* ================================================================== *)
(** ** The item's metadata manager (python-irodsclient) *)
(* ================================================================== *)

(** [meta.py] reaches the catalog only through [item.metadata.items],
    [get_all], [add] and [remove].  The catalog keeps an AVU without units
    under the empty unit string and lists it with [units = None]; an [add]
    or [remove] passed [None] or [''] for the units addresses that AVU.  The
    client refuses an [add] with an empty name or value before it sends
    anything; [metadata_add] is the catalog's side of the call, for a name
    and a value that are not empty. *)

Definition norm_units (u : option string) : option string :=
  match u with
  | Some "" => None
  | _ => u
  end.

Definition option_eqb (a b : option string) : bool :=
  match a, b with
  | Some x, Some y => String.eqb x y
  | None, None => true
  | _, _ => false
  end.

(** The AVU that the triplet [(k, v, u)] addresses on the catalog. *)
Definition same_avu (k v : string) (u : option string) (e : iRODSMeta) : bool :=
  String.eqb (name e) k && String.eqb (value e) v
  && option_eqb (norm_units (units e)) (norm_units u).

Fixpoint remove_first {A} (f : A -> bool) (l : list A) : list A :=
  match l with
  | [] => []
  | x :: l' => if f x then l' else x :: remove_first f l'
  end.

Definition metadata_items (self : MetaData) : list iRODSMeta :=
  metadata (item self).

Definition metadata_get_all (key : string) (self : MetaData) : list iRODSMeta :=
  filter (fun e => String.eqb (name e) key) (metadata (item self)).

Definition metadata_add (k v : string) (u : option string) : M unit :=
  fun self =>
    let it := item self in
    if negb (access it) then
      (inl (IrodsException CAT_NO_ACCESS_PERMISSION), self)
    else if existsb (same_avu k v u) (metadata it) then
      (inl (IrodsException CATALOG_ALREADY_HAS_ITEM_BY_THAT_NAME), self)
    else
      (inr tt,
       with_item self
         (with_metadata it (metadata it ++ [mkMeta k v (norm_units u)]))).

Definition metadata_remove (k v : string) (u : option string) : M unit :=
  fun self =>
    let it := item self in
    if negb (access it) then
      (inl (IrodsException CAT_NO_ACCESS_PERMISSION), self)
    else if existsb (same_avu k v u) (metadata it) then
      (inr tt,
       with_item self
         (with_metadata it (remove_first (same_avu k v u) (metadata it))))
    else
      (inl (IrodsException CAT_SUCCESS_BUT_WITH_NO_INFO), self).

(** [item.metadata.remove(meta)] with an [iRODSMeta] argument. *)
Definition metadata_remove_meta (e : iRODSMeta) : M unit :=
  metadata_remove (name e) (value e) (units e).

(* ================================================================== *)
(** ** [MetaData]: iteration, length, membership *)
(* ================================================================== *)

(** What one step of [__iter__] yields: the statement
    [yield self.item.metadata.items()] yields the whole list as one object,
    the loop yields single entries. *)
Inductive yielded : Type :=
| YItems (l : list iRODSMeta)
| YMeta (m : iRODSMeta).

(** [MetaData.__iter__] (the warning for a skipped entry has no effect on
    the sequence and is left out). *)
Definition iter (self : MetaData) : list yielded :=
  (match blacklist self with
   | None => [YItems (metadata_items self)]
   | Some _ => []
   end)
  ++
  flat_map
    (fun meta =>
       match blacklist self with
       | None => [YMeta meta]
       | Some bl =>
           if negb (Re.re_match bl (name meta)) then [YMeta meta] else []
       end)
    (metadata_items self).

(** [MetaData.__len__]. *)
Definition len (self : MetaData) : nat := length (iter self).

Inductive attr : Type := attr_name | attr_value | attr_units.

(** [getattr(meta, attr)] on what iteration yielded; a list has none of the
    three attributes. *)
Definition getattr (y : yielded) (a : attr) : result (option string) :=
  match y with
  | YItems _ => inl AttributeError
  | YMeta m =>
      inr (match a with
           | attr_name => Some (name m)
           | attr_value => Some (value m)
           | attr_units => units m
           end)
  end.

Definition is_None (v : option string) : bool :=
  match v with None => true | Some _ => false end.

(** The inner loop of [__contains__]: [n_same] after comparing [meta] with
    [val] attribute by attribute, stopping at the first difference. *)
Fixpoint n_same (y : yielded) (all_attrs : list attr) (val : list (option string))
  : result nat :=
  match all_attrs, val with
  | a :: attrs', v :: val' =>
      match getattr y a with
      | inl e => inl e
      | inr x =>
          if option_eqb x v || is_None v then
            match n_same y attrs' val' with
            | inl e => inl e
            | inr n => inr (S n)
            end
          else inr 0
      end
  | _, _ => inr 0
  end.

Fixpoint contains_loop (ys : list yielded) (val : list (option string))
  : result bool :=
  match ys with
  | [] => inr false
  | y :: ys' =>
      match n_same y (firstn (length val) [attr_name; attr_value; attr_units]) val with
      | inl e => inl e
      | inr n => if Nat.eqb n (length val) then inr true else contains_loop ys' val
      end
  end.

(** [MetaData.__contains__]; a [str] argument is the one-element sequence. *)
Definition contains (self : MetaData) (val : list (option string)) : result bool :=
  contains_loop (iter self) val.

(* ================================================================== *)
(** ** [MetaData]: add, delete, set, update, clear *)
(* ================================================================== *)

(** [MetaData.add]. *)
Definition add (key value : string) (units : option string) : M unit :=
  try_except
    (present <- read (fun self => contains self [Some key; Some value; units]) ;;
     if present : bool then raise (ValueError MetadataAlreadyPresent)
     else
       blacklisted <- read (fun self =>
                              match blacklist self with
                              | None => inl TypeError
                              | Some bl => inr (Re.re_match bl key)
                              end) ;;
       if blacklisted : bool then raise (ValueError KeyMustNotStartWith)
       else metadata_add key value units)
    (fun e =>
       match e with
       | IrodsException CAT_NO_ACCESS_PERMISSION => Some (raise PermissionError)
       | _ => None
       end).

(** An argument of [delete] that defaults to the Ellipsis. *)
Inductive arg (A : Type) : Type :=
| Ellipsis
| Given (a : A).
Arguments Ellipsis {A}.
Arguments Given {A} a.

Definition is_Ellipsis {A} (a : arg A) : bool :=
  match a with Ellipsis => true | Given _ => false end.

(** [value == meta.value] and [units == meta.units] in [delete]. *)
Definition value_eq (v : arg string) (m : iRODSMeta) : bool :=
  match v with Ellipsis => false | Given s => String.eqb s (value m) end.

Definition units_eq (u : arg (option string)) (m : iRODSMeta) : bool :=
  match u with Ellipsis => false | Given o => option_eqb o (units m) end.

(** [MetaData.delete]; [value] is a string or the Ellipsis, [units] a string,
    [None] or the Ellipsis. *)
Definition delete (key : string) (value : arg string) (units : arg (option string))
  : M unit :=
  try_except
    (match value, units with
     | Given v, Given u => metadata_remove key v u
     | _, _ =>
         all_metas <- read (fun self => inr (metadata_get_all key self)) ;;
         for_each all_metas
           (fun meta =>
              if is_Ellipsis value
                 || value_eq value meta && is_Ellipsis units
                 || units_eq units meta
              then metadata_remove_meta meta
              else ret tt)
     end)
    (fun e =>
       match e with
       | IrodsException CAT_SUCCESS_BUT_WITH_NO_INFO => Some (raise KeyError)
       | IrodsException CAT_NO_ACCESS_PERMISSION =>
           Some (raise (ValueError InsufficientPermission))
       | _ => None
       end).

(** [MetaData.set]. *)
Definition set (key value : string) (units : option string) : M unit :=
  delete key Ellipsis Ellipsis ;;;
  add key value units.

(** Truth value of an optional string: [None] and [''] are false. *)
Definition truthy (u : option string) : bool :=
  match u with
  | None => false
  | Some s => negb (String.eqb s "")
  end.

(** [MetaData.update], in the three blocks of its body: the checks that
    raise [ValueError], the [add] of the replacement, and the [delete] of the
    original. *)
Definition update_checks (key value : string)
    (units new_value new_units : option string) : M unit :=
  (if is_None new_value && is_None new_units
   then raise (ValueError NoNewValueOrUnit) else ret tt) ;;;
  (if option_eqb new_value (Some "")
   then raise (ValueError NewValueEmpty) else ret tt) ;;;
  (present <- read (fun self =>
                      match units with
                      | None => contains self [Some key; Some value]
                      | Some _ => contains self [Some key; Some value; units]
                      end) ;;
   if present : bool then ret tt else raise (ValueError DoesNotExist)).

Definition update_add (key value : string)
    (units new_value new_units : option string) : M unit :=
  match new_value, new_units with
  | Some nv, Some nu => add key nv (Some nu)
  | Some nv, None => add key nv units
  | None, Some nu => add key value (Some nu)
  | None, None => ret tt
  end.

Definition update_delete (key value : string) (units : option string) : M unit :=
  if truthy units then delete key (Given value) (Given units)
  else delete key (Given value) (Given (Some "")).

Definition update (key value : string) (units new_value new_units : option string)
  : M unit :=
  update_checks key value units new_value new_units ;;;
  update_add key value units new_value new_units ;;;
  update_delete key value units.

(** [MetaData.clear]: [self.item.metadata.remove(meta)] for everything that
    iteration yields, the iteration reading the listing fetched when the loop
    starts.  Handing the manager a list instead of an AVU fails on the
    first attribute access. *)
Definition clear : M unit :=
  ys <- read (fun self => inr (iter self)) ;;
  for_each ys
    (fun y =>
       match y with
       | YItems _ => raise AttributeError
       | YMeta meta => metadata_remove_meta meta
       end).

(* ================================================================== *)
(** ** [MetaData]: the string representation *)
(* ================================================================== *)

Section Sorted.

Context {A : Type}.

(** [x <= y] on the sort keys of two elements. *)
Variable le : A -> A -> bool.

Fixpoint insert_sorted (x : A) (l : list A) : list A :=
  match l with
  | [] => [x]
  | y :: l' => if le x y then x :: l else y :: insert_sorted x l'
  end.

(** [sorted(l, key=...)]: ascending and stable, elements with equal keys
    keep the order they have in [l]. *)
Definition sorted (l : list A) : list A := fold_right insert_sorted [] l.

End Sorted.

(** A sort key [(x is None, x)]. *)
Definition sort_key : Type := (bool * option string)%type.

Definition key_of (x : option string) : sort_key := (is_None x, x).

(** [a <= b] on such tuples: [False] comes before [True], and two keys that
    agree on the first component are compared on the strings, by code
    points. *)
Definition key_le (a b : sort_key) : bool :=
  match fst a, fst b with
  | false, true => true
  | true, false => false
  | _, _ =>
      match snd a, snd b with
      | Some x, Some y => String.leb x y
      | _, _ => true
      end
  end.

Definition by_units (m1 m2 : iRODSMeta) : bool :=
  key_le (key_of (units m1)) (key_of (units m2)).

Definition by_value (m1 m2 : iRODSMeta) : bool :=
  key_le (key_of (Some (value m1))) (key_of (Some (value m2))).

Definition by_name (m1 m2 : iRODSMeta) : bool :=
  key_le (key_of (Some (name m1))) (key_of (Some (name m2))).

(** [str(x)] for an optional string. *)
Definition str_of_option (x : option string) : string :=
  match x with
  | Some s => s
  | None => "None"
  end.

(** The line [f" - {{name: ..., value: ..., units: ...}}"]. *)
Definition format_entry (m : iRODSMeta) : string :=
  " - {name: " ++ name m ++ ", value: " ++ value m
  ++ ", units: " ++ str_of_option (units m) ++ "}".

Definition newline : string := String "010" EmptyString.

(** The entries of [list(self)] as the sort keys read them: a list among
    them has no [units]. *)
Definition entry_of (y : yielded) : exn + iRODSMeta :=
  match y with
  | YItems _ => inl AttributeError
  | YMeta m => inr m
  end.

Fixpoint entries_of (ys : list yielded) : exn + list iRODSMeta :=
  match ys with
  | [] => inr []
  | y :: ys' =>
      match entry_of y with
      | inl e => inl e
      | inr m =>
          match entries_of ys' with
          | inl e => inl e
          | inr ms => inr (m :: ms)
          end
      end
  end.

(** [MetaData.__str__]. *)
Definition str (self : MetaData) : exn + string :=
  match entries_of (iter self) with
  | inl e => inl e
  | inr meta_list =>
      let meta_list := sorted by_units meta_list in
      let meta_list := sorted by_value meta_list in
      let meta_list := sorted by_name meta_list in
      inr (String.concat newline (map format_entry meta_list))
  end.

(** [MetaData.__repr__]. *)
Definition repr (self : MetaData) : string :=
  "MetaData<" ++ item_path (item self) ++ ">".

(* ================================================================== *)
(** ** [MetaData]: to_dict and from_dict *)
(* ================================================================== *)

Definition triplet : Type := (string * string * option string)%type.

(** The dictionary of [to_dict]; ["checksum"] is present for data objects
    only. *)
Record meta_dict : Type := mkDict {
  d_name     : string;
  d_irods_id : nat;
  d_checksum : option string;
  d_metadata : list triplet
}.

Definition rbind {A B} (r : result A) (k : A -> result B) : result B :=
  match r with
  | inl e => inl e
  | inr a => k a
  end.

Fixpoint rmap {A B} (f : A -> result B) (l : list A) : result (list B) :=
  match l with
  | [] => inr []
  | x :: l' =>
      rbind (f x) (fun y => rbind (rmap f l') (fun ys => inr (y :: ys)))
  end.

(** [key in keys] for a list of strings. *)
Definition in_keys (k : string) (keys : list string) : bool :=
  existsb (String.eqb k) keys.

(** The comprehension [[(m.name, m.value, m.units) for m in self ...]]. *)
Fixpoint triplets (ys : list yielded) (keys : option (list string))
  : result (list triplet) :=
  match ys with
  | [] => inr []
  | YItems _ :: _ => inl AttributeError
  | YMeta m :: ys' =>
      rbind (triplets ys' keys)
        (fun ts =>
           inr (match keys with
                | None => (name m, value m, units m) :: ts
                | Some ks =>
                    if in_keys (name m) ks
                    then (name m, value m, units m) :: ts else ts
                end))
  end.

(** [MetaData.to_dict]. *)
Definition to_dict (self : MetaData) (keys : option (list string))
  : result meta_dict :=
  rbind (triplets (iter self) keys)
    (fun ts =>
       inr (mkDict (item_name (item self)) (item_id (item self))
              (match item_kind_of (item self) with
               | DataObject => Some (checksum (item self))
               | _ => None
               end)
              ts)).

(** [MetaData.from_dict]: the loop over [meta_dict["metadata"]]. *)
Fixpoint from_dict_loop (ts : list triplet) : M unit :=
  match ts with
  | [] => ret tt
  | (k, v, u) :: ts' =>
      try_except (add k v u)
        (fun e => match e with
                  | ValueError _ => Some (ret tt)
                  | _ => None
                  end) ;;;
      from_dict_loop ts'
  end.

Definition from_dict (d : meta_dict) : M unit := from_dict_loop (d_metadata d).

(* ================================================================== *)
(** ** Recursive export ([export_metadata.py]) *)
(* ================================================================== *)

Fixpoint segments (s cur : string) : list string :=
  match s with
  | EmptyString => if String.eqb cur "" then [] else [cur]
  | String c s' =>
      if Ascii.eqb c "/"
      then (if String.eqb cur "" then [] else [cur]) ++ segments s' ""
      else segments s' (cur ++ String c "")
  end.

(** Modelled from the spec: [IrodsPath.parts] ([ibridges/path.py] is not
    among the sources).  The segments of a path are its pieces between path
    separators. *)
Definition parts (path : string) : list string := segments path "".

(** One record of the flat [objects] / [collections] lists. *)
Record export_record : Type := mkRecord {
  r_name     : string;
  r_irods_id : nat;
  r_rel_path : string;
  r_metadata : meta_dict
}.

(** ['/'.join(IrodsPath(session, x.path).parts[len(coll_path.parts):])]. *)
Definition rel_path (coll_path : string) (x : Item) : string :=
  String.concat "/" (skipn (length (parts coll_path)) (parts (item_path x))).

(** The dictionary built for one child [x] of a walk rooted at [coll_path]. *)
Definition record_of (coll_path : string) (x : Item) : result export_record :=
  rbind (to_dict (MetaData_init x) None)
    (fun d => inr (mkRecord (item_name x) (item_id x) (rel_path coll_path x) d)).

Section Extend.

(** The recursive call of [get_subcolls] on one subcollection. *)
Variable walk : Item -> result (list export_record * list export_record).

(** The loop [for subcoll in coll.subcollections] of [get_subcolls], which
    extends both lists with what the walk of each subcollection returns. *)
Fixpoint extend (subs : list Item) (objects collections : list export_record)
  : result (list export_record * list export_record) :=
  match subs with
  | [] => inr (objects, collections)
  | subcoll :: subs' =>
      rbind (walk subcoll)
        (fun sub =>
           extend subs' (objects ++ fst sub) (collections ++ snd sub))
  end.

End Extend.

(** [get_subcolls]; [root] is the optional third parameter. *)
Fixpoint get_subcolls (coll : Item) (root : option string) {struct coll}
  : result (list export_record * list export_record) :=
  let coll_path :=
    match root with
    | Some r => r
    | None => item_path coll
    end in
  rbind (rmap (record_of coll_path) (data_objects coll)) (fun objects =>
  rbind (rmap (record_of coll_path) (subcollections coll)) (fun collections =>
  if Nat.ltb 0 (length (subcollections coll)) then
    extend (fun subcoll => get_subcolls subcoll (Some coll_path))
      (subcollections coll) objects collections
  else inr (objects, []))).

(** The exported dictionary; the keys ["subcollections"] and ["dataobjects"]
    exist only after a recursive export of a collection. *)
Record export_dict : Type := mkExport {
  x_item           : meta_dict;
  x_subcollections : option (list export_record);
  x_dataobjects    : option (list export_record)
}.

(** Modelled from the spec: [is_dataobject] and [is_collection]
    ([ibridges/data_operations.py] is not among the sources).  They tell the
    kind of the item: a data object, a collection, or neither. *)
Definition is_dataobject (it : Item) : bool :=
  match item_kind_of it with DataObject => true | _ => false end.

Definition is_collection (it : Item) : bool :=
  match item_kind_of it with Collection => true | _ => false end.

(** [export_metadata_to_dict]. *)
Definition export_metadata_to_dict (meta : MetaData) (recursive : bool)
    (keys : option (list string)) : result export_dict :=
  if is_dataobject (item meta) then
    rbind (to_dict meta keys) (fun d => inr (mkExport d None None))
  else if is_collection (item meta) then
    rbind (to_dict meta keys) (fun metadata_dict =>
      if recursive then
        rbind (get_subcolls (item meta) (Some (item_path (item meta))))
          (fun oc =>
             inr (mkExport metadata_dict (Some (snd oc)) (Some (fst oc))))
      else inr (mkExport metadata_dict None None))
  else inl (ValueError NotCollectionOrDataObject).

(* ================================================================== *)
(** ** Derived notions and example data *)
(* ================================================================== *)

(** The view after the item's AVU list became [l]. *)
Definition set_avus (self : MetaData) (l : list iRODSMeta) : MetaData :=
  with_item self (with_metadata (item self) l).

(** No entry of [l] is named [key]. *)
Definition key_free (key : string) (l : list iRODSMeta) : Prop :=
  forall e, In e l -> String.eqb (name e) key = false.

Definition named (key : string) (e : iRODSMeta) : bool := String.eqb (name e) key.

Definition not_named (key : string) (e : iRODSMeta) : bool :=
  negb (String.eqb (name e) key).

Definition example_item (l : list iRODSMeta) : Item :=
  mkItem "x.txt" 10 "/zone/home/root/x.txt" DataObject "sha2:0" l true [] [].

Definition two_entries_under_A : MetaData :=
  MetaData_init
    (example_item [mkMeta "A" "1" None; mkMeta "A" "2" (Some "kg");
                   mkMeta "B" "7" None]).


Definition values_1_and_2_under_A : MetaData :=
  MetaData_init (example_item [mkMeta "A" "1" None; mkMeta "A" "2" None]).

Definition read_only_item (l : list iRODSMeta) : Item :=
  mkItem "x.txt" 10 "/zone/home/root/x.txt" DataObject "sha2:0" l false [] [].

Definition read_only_with_A : MetaData :=
  MetaData_init (read_only_item [mkMeta "A" "1" None]).

Definition empty_view : MetaData := MetaData_init (example_item []).

Definition mass_in_kg : MetaData :=
  MetaData_init (example_item [mkMeta "mass" "10" (Some "kg")]).

(** [o] is a data object of [c] or of a collection below [c]. *)
Inductive descendant_object (o : Item) : Item -> Prop :=
| child_object (c : Item) :
    In o (data_objects c) -> descendant_object o c
| deeper_object (c s : Item) :
    In s (subcollections c) -> descendant_object o s -> descendant_object o c.

(** What a walk of [coll] promises: it returns, and its first list holds the
    record of every descendant data object, relative to the root it was
    given. *)
Definition walk_complete (coll : Item) : Prop :=
  forall root : option string,
    let coll_path := match root with Some r => r | None => item_path coll end in
    exists objects collections,
      get_subcolls coll root = inr (objects, collections)
      /\ forall o r,
          descendant_object o coll ->
          record_of coll_path o = inr r -> In r objects.

Definition example_root : Item :=
  mkItem "root" 1 "/zone/home/root" Collection "" [] true []
    [mkItem "sub" 2 "/zone/home/root/sub" Collection "" [] true
       [mkItem "x.txt" 3 "/zone/home/root/sub/x.txt" DataObject "sha2:0"
          [mkMeta "Author" "Ben" None] true [] []]
       []].

(** A selection of entries that does not tell apart what the catalog
    identifies (same name, same value, same units up to the empty unit). *)
Definition respects_avu (sel : iRODSMeta -> bool) : Prop :=
  forall e x,
    sel e = true ->
    same_avu (name e) (value e) (units e) x = true ->
    sel x = true.

(** The entries that the loop of [delete] removes: those that [get_all(key)]
    lists and that pass the test in the loop body. *)
Definition delete_selects (key : string) (value : arg string)
    (units : arg (option string)) (m : iRODSMeta) : bool :=
  named key m
  && (is_Ellipsis value
      || value_eq value m && is_Ellipsis units
      || units_eq units m).

(** The entries that iteration shows under the pattern [bl]. *)
Definition visible (bl : Re.pattern) (m : iRODSMeta) : bool :=
  negb (Re.re_match bl (name m)).

Definition visible_entries (bl : Re.pattern) (self : MetaData) : list iRODSMeta :=
  filter (visible bl) (metadata (item self)).

(** The tuple that [to_dict] writes for an entry. *)
Definition triplet_of (m : iRODSMeta) : triplet := (name m, value m, units m).

(** The name and value of an entry, which is all that [add] without units
    compares. *)
Definition name_value (m : iRODSMeta) : string * string := (name m, value m).

(** [add] of the triplet raises a [ValueError] on this view (and so leaves
    it unchanged). *)
Definition rejected (t : triplet) (self : MetaData) : Prop :=
  exists why,
    add (fst (fst t)) (snd (fst t)) (snd t) self = (inl (ValueError why), self).

Definition mass_in_two_units : MetaData :=
  MetaData_init
    (example_item [mkMeta "mass" "10" (Some "kg"); mkMeta "mass" "12" None;
                   mkMeta "mass" "10" (Some "g")]).

Definition with_system_entries : MetaData :=
  MetaData_init
    (example_item [mkMeta "Author" "Ben" None; mkMeta "org_id" "7" None;
                   mkMeta "mass" "10" (Some "kg"); mkMeta "org_lock" "1" None]).

(** [s] is a subcollection of [c] or of a collection below [c]. *)
Inductive descendant_collection (s : Item) : Item -> Prop :=
| child_collection (c : Item) :
    In s (subcollections c) -> descendant_collection s c
| deeper_collection (c s' : Item) :
    In s' (subcollections c) -> descendant_collection s s' ->
    descendant_collection s c.

(** What a walk of [coll] returns: the records of the descendant data
    objects and those of the descendant subcollections, relative to the root
    it was given, and nothing else. *)
Definition walk_exact (coll : Item) : Prop :=
  forall root : option string,
    let coll_path := match root with Some r => r | None => item_path coll end in
    exists objects collections,
      get_subcolls coll root = inr (objects, collections)
      /\ (forall r, In r objects <->
                    exists o, descendant_object o coll
                              /\ record_of coll_path o = inr r)
      /\ (forall r, In r collections <->
                    exists s, descendant_collection s coll
                              /\ record_of coll_path s = inr r).

(** The order of two optional units in the listing: strings by code points,
    and an entry without units after every entry with units. *)
Definition units_le (u1 u2 : option string) : bool :=
  match u1, u2 with
  | Some a, Some b => String.leb a b
  | Some _, None => true
  | None, Some _ => false
  | None, None => true
  end.

(** The order of two entries in the listing: by name, then by value, then
    by units. *)
Definition entry_le (m1 m2 : iRODSMeta) : Prop :=
  String.leb (name m1) (name m2) = true
  /\ (name m1 = name m2 ->
      String.leb (value m1) (value m2) = true
      /\ (value m1 = value m2 -> units_le (units m1) (units m2) = true)).

(** [le1] first and, between elements that [le1] does not tell apart, [R]. *)
Definition then_by {A} (le1 : A -> A -> bool) (R : A -> A -> Prop) (x y : A)
  : Prop :=
  le1 x y = true /\ (le1 y x = true -> R x y).

(* ================================================================== *)
(** * Properties *)
(* ================================================================== *)

(** ** The view as state *)

Lemma set_avus_same (self : MetaData) :
  set_avus self (metadata (item self)) = self.
Proof. destruct self as [[] ?]; reflexivity. Qed.

Lemma same_avu_refl (e : iRODSMeta) :
  same_avu (name e) (value e) (units e) e = true.
Proof.
  unfold same_avu. rewrite !String.eqb_refl. simpl.
  destruct (norm_units (units e)); simpl; auto using String.eqb_refl.
Qed.

Lemma same_avu_name (k v : string) (u : option string) (e : iRODSMeta) :
  same_avu k v u e = true -> name e = k.
Proof.
  unfold same_avu. intros H.
  apply andb_true_iff in H as [H _]. apply andb_true_iff in H as [H _].
  now apply String.eqb_eq.
Qed.



Lemma remove_first_skip (e : iRODSMeta) (pre rest : list iRODSMeta) :
  key_free (name e) pre ->
  remove_first (same_avu (name e) (value e) (units e)) (pre ++ e :: rest)
  = (pre ++ rest)%list.
Proof.
  induction pre as [|x pre IH]; intros Hfree; simpl.
  - now rewrite same_avu_refl.
  - destruct (same_avu (name e) (value e) (units e) x) eqn:Hx.
    + apply same_avu_name in Hx. specialize (Hfree x (or_introl eq_refl)).
      rewrite Hx, String.eqb_refl in Hfree. discriminate.
    + f_equal. apply IH. intros y Hy. apply Hfree. now right.
Qed.

Ltac same_view := intros H; inversion H; reflexivity.

(** A failing [add] leaves the view as it was: every [raise] of [add]
    precedes the call that changes the item, and a refused call changes
    nothing. *)
Lemma add_failure_keeps_view (k v : string) (u : option string)
    (self self' : MetaData) (e : exn) :
  add k v u self = (inl e, self') -> self' = self.
Proof.
  unfold add, try_except, bind, read, raise, metadata_add.
  destruct (contains self [Some k; Some v; u]) as [e0|[|]]; simpl.
  - destruct e0 as [ | | | | |[]]; same_view.
  - same_view.
  - destruct (blacklist self) as [bl|]; simpl; [|same_view].
    destruct (Re.re_match bl k); simpl; [same_view|].
    destruct (negb (access (item self))); simpl; [same_view|].
    destruct (existsb (same_avu k v u) (metadata (item self))); simpl;
      same_view.
Qed.

(** ** The wildcard loop of [delete] *)

(** Removing, one after the other, the entries that [get_all key] listed
    leaves exactly the entries under other keys, in their order. *)
Lemma remove_named_loop (key : string) (l : list iRODSMeta) :
  forall (pre : list iRODSMeta) (self : MetaData),
    access (item self) = true ->
    metadata (item self) = (pre ++ l)%list ->
    key_free key pre ->
    for_each (filter (named key) l) metadata_remove_meta self
    = (inr tt, set_avus self (pre ++ filter (not_named key) l)).
Proof.
  induction l as [|a l IH]; intros pre self Hacc Hmeta Hfree.
  - simpl. unfold ret. rewrite <- Hmeta, set_avus_same. reflexivity.
  - simpl filter. unfold named at 1, not_named at 1.
    destruct (String.eqb (name a) key) eqn:Ha; simpl negb; cbv iota.
    + apply String.eqb_eq in Ha.
      assert (Hex : existsb (same_avu (name a) (value a) (units a)) (pre ++ a :: l)
                    = true).
      { apply existsb_exists. exists a. split.
        - apply in_or_app. right. now left.
        - apply same_avu_refl. }
      simpl for_each. unfold bind.
      unfold metadata_remove_meta at 1, metadata_remove.
      rewrite Hacc, Hmeta, Hex. simpl negb. cbv iota.
      rewrite remove_first_skip by (rewrite Ha; exact Hfree).
      rewrite (IH pre); auto.
    + rewrite (IH (pre ++ [a])%list).
      * now rewrite <- app_assoc.
      * exact Hacc.
      * now rewrite <- app_assoc.
      * intros e He. apply in_app_or in He as [He|[<-|[]]]; auto.
Qed.

Lemma delete_key_removes_all (key : string) (self : MetaData) :
  access (item self) = true ->
  delete key Ellipsis Ellipsis self
  = (inr tt, set_avus self (filter (not_named key) (metadata (item self)))).
Proof.
  intros Hacc. unfold delete, try_except, bind, read.
  change (for_each (metadata_get_all key self) _ self)
    with (for_each (filter (named key) (metadata (item self)))
            metadata_remove_meta self).
  now rewrite (remove_named_loop key (metadata (item self)) [] self).
Qed.

(** ** Membership on a filtered view *)

Lemma iter_blacklist (self : MetaData) (bl : Re.pattern) :
  blacklist self = Some bl ->
  iter self
  = map YMeta
      (filter (fun m => negb (Re.re_match bl (name m))) (metadata (item self))).
Proof.
  intros Hbl. unfold iter, metadata_items. rewrite Hbl. simpl.
  induction (metadata (item self)) as [|m l IH]; simpl; [reflexivity|].
  destruct (negb (Re.re_match bl (name m))); simpl; now rewrite IH.
Qed.

Lemma contains_key_free (key : string) (rest : list (option string))
    (l : list iRODSMeta) :
  key_free key l ->
  contains_loop (map YMeta l) (Some key :: rest) = inr false.
Proof.
  induction l as [|m l IH]; intros Hfree; simpl; [reflexivity|].
  rewrite (Hfree m (or_introl eq_refl)). simpl.
  apply IH. intros e He. apply Hfree. now right.
Qed.





(** ** Theorems about [set], [delete] and [update] *)




(** C10. [delete(key, units=u)], the value left at the Ellipsis, runs the
    same computation as [delete(key)]: the units given are never looked at.
    When the session may modify the item, it removes every entry under [key],
    whatever its value and units, and nothing else. *)
Theorem delete_units_without_value_is_delete_key
    (key : string) (u : option string) (self : MetaData) :
  delete key Ellipsis (Given u) self = delete key Ellipsis Ellipsis self
  /\ (access (item self) = true ->
      delete key Ellipsis (Given u) self
      = (inr tt, set_avus self (filter (not_named key) (metadata (item self))))).
Proof.
  split; [reflexivity|].
  intros Hacc. now rewrite <- delete_key_removes_all.
Qed.

Lemma delete_units_without_value_is_delete_key_witness :
  delete "A" Ellipsis (Given (Some "g")) two_entries_under_A
  = (inr tt, set_avus two_entries_under_A [mkMeta "B" "7" None]).
Proof.
  exact (proj2 (delete_units_without_value_is_delete_key
                  "A" (Some "g") two_entries_under_A) eq_refl).
Defined.

Lemma update_checks_pure (key value : string)
    (units new_value new_units : option string) (self : MetaData) :
  snd (update_checks key value units new_value new_units self) = self.
Proof.
  unfold update_checks, bind, read, raise, ret.
  destruct (is_None new_value && is_None new_units); simpl; [reflexivity|].
  destruct (option_eqb new_value (Some "")); simpl; [reflexivity|].
  destruct units;
    match goal with
    | |- context [contains ?s ?v] => destruct (contains s v) as [?|[|]]
    end; reflexivity.
Qed.

(** C9. [update] adds the replacement before it deletes the original: when
    the checks have passed and the [add] of the replacement fails, for
    whatever reason, [update] fails with that very exception and the view is
    the one from before the call, so the original entry is still there and
    iteration yields what it yielded before. *)
Theorem update_add_failure_preserves_view
    (key value : string) (units new_value new_units : option string)
    (self self' : MetaData) (e : exn) :
  fst (update_checks key value units new_value new_units self) = inr tt ->
  update_add key value units new_value new_units self = (inl e, self') ->
  update key value units new_value new_units self = (inl e, self)
  /\ self' = self.
Proof.
  intros Hchecks Hadd.
  assert (Hsame : self' = self).
  { unfold update_add in Hadd.
    destruct new_value, new_units;
      solve [ eapply add_failure_keeps_view; eassumption
            | inversion Hadd ]. }
  split; [|exact Hsame].
  unfold update, bind.
  pose proof (update_checks_pure key value units new_value new_units self) as Hp.
  destruct (update_checks key value units new_value new_units self) as [r s].
  simpl in Hchecks, Hp. subst r s. rewrite Hadd. now subst self'.
Qed.

Lemma update_add_failure_preserves_view_witness :
  update "A" "1" None (Some "2") None values_1_and_2_under_A
  = (inl (ValueError MetadataAlreadyPresent), values_1_and_2_under_A)
  /\ values_1_and_2_under_A = values_1_and_2_under_A.
Proof.
  apply (update_add_failure_preserves_view "A" "1" None (Some "2") None
           values_1_and_2_under_A values_1_and_2_under_A
           (ValueError MetadataAlreadyPresent)); reflexivity.
Defined.

(** ** [from_dict] *)

Lemma from_dict_loop_step (k v : string) (u : option string)
    (ts : list triplet) (self : MetaData) :
  from_dict_loop ((k, v, u) :: ts) self
  = match add k v u self with
    | (inr _, self1) => from_dict_loop ts self1
    | (inl e, self1) =>
        if is_ValueError e then from_dict_loop ts self1 else (inl e, self1)
    end.
Proof.
  simpl. unfold bind, try_except, ret.
  destruct (add k v u self) as [[e|[]] self1]; [|reflexivity].
  destruct e; reflexivity.
Qed.

Lemma from_dict_loop_failure (ts : list triplet) :
  forall (self self' : MetaData) (e : exn),
    from_dict_loop ts self = (inl e, self') ->
    exists pre k v u post,
      ts = (pre ++ (k, v, u) :: post)%list
      /\ from_dict_loop pre self = (inr tt, self')
      /\ add k v u self' = (inl e, self')
      /\ is_ValueError e = false.
Proof.
  induction ts as [|[[k v] u] ts IH]; intros self self' e Hrun.
  - inversion Hrun.
  - rewrite from_dict_loop_step in Hrun.
    destruct (add k v u self) as [[e0|[]] self1] eqn:Hadd.
    + pose proof (add_failure_keeps_view _ _ _ _ _ _ Hadd) as ->.
      destruct (is_ValueError e0) eqn:Hve.
      * destruct (IH _ _ _ Hrun) as (pre & k' & v' & u' & post & -> & Hpre & Hk & Hne).
        exists ((k, v, u) :: pre), k', v', u', post. repeat split; auto.
        rewrite from_dict_loop_step, Hadd, Hve. exact Hpre.
      * inversion Hrun; subst.
        exists [], k, v, u, ts. repeat split; auto.
    + destruct (IH _ _ _ Hrun) as (pre & k' & v' & u' & post & -> & Hpre & Hk & Hne).
      exists ((k, v, u) :: pre), k', v', u', post. repeat split; auto.
      rewrite from_dict_loop_step, Hadd. exact Hpre.
Qed.

Lemma from_dict_loop_abort (pre : list triplet) :
  forall (k v : string) (u : option string) (post : list triplet)
         (self self' : MetaData) (e : exn),
    from_dict_loop pre self = (inr tt, self') ->
    add k v u self' = (inl e, self') ->
    is_ValueError e = false ->
    from_dict_loop (pre ++ (k, v, u) :: post) self = (inl e, self').
Proof.
  induction pre as [|[[k0 v0] u0] pre IH];
    intros k v u post self self' e Hpre Hadd Hne.
  - inversion Hpre; subst. simpl app.
    now rewrite from_dict_loop_step, Hadd, Hne.
  - simpl app. rewrite from_dict_loop_step in *.
    destruct (add k0 v0 u0 self) as [[e0|[]] self1].
    + destruct (is_ValueError e0); [|discriminate]. eauto.
    + eauto.
Qed.

(** C1, as the code has it.  [from_dict] suppresses every [ValueError] that
    [add] raises for a triplet (the duplicate and the blacklisted key alike)
    and goes on with the triplets after it.  Any other exception of [add],
    a permission denial in particular, ends the restore at once: [from_dict]
    fails exactly when, after a prefix of the triplets has been processed,
    [add] of the next triplet raises an exception that is not a
    [ValueError]; it then fails with that exception, in the state the prefix
    left, and none of the later triplets is tried. *)
Theorem from_dict_suppresses_ValueError_only (d : meta_dict) (self : MetaData) :
  (forall k v u rest why,
      d_metadata d = (k, v, u) :: rest ->
      fst (add k v u self) = inl (ValueError why) ->
      from_dict d self = from_dict_loop rest self)
  /\
  (forall e self',
      from_dict d self = (inl e, self') <->
      exists pre k v u post,
        d_metadata d = (pre ++ (k, v, u) :: post)%list
        /\ from_dict_loop pre self = (inr tt, self')
        /\ add k v u self' = (inl e, self')
        /\ is_ValueError e = false).
Proof.
  unfold from_dict. split.
  - intros k v u rest why -> Hadd. rewrite from_dict_loop_step.
    destruct (add k v u self) as [r self1] eqn:Heq. simpl in Hadd. subst r.
    now rewrite (add_failure_keeps_view _ _ _ _ _ _ Heq).
  - intros e self'. split.
    + apply from_dict_loop_failure.
    + intros (pre & k & v & u & post & -> & Hpre & Hadd & Hne).
      now apply from_dict_loop_abort.
Qed.

Lemma from_dict_suppresses_ValueError_only_witness :
  from_dict (mkDict "x.txt" 10 (Some "sha2:0")
               [("A", "1", None); ("B", "2", None); ("C", "3", None)])
    read_only_with_A
  = (inl PermissionError, read_only_with_A).
Proof.
  apply (proj2 (from_dict_suppresses_ValueError_only _ read_only_with_A)).
  exists [("A", "1", None)], "B", "2", None, [("C", "3", None)].
  repeat split; reflexivity.
Defined.

(** C1 as stated fails: a blacklist violation is a [ValueError] too, so
    [from_dict] swallows it and restores the triplets after it. *)
Lemma from_dict_swallows_blacklist_violation :
  add "org_x" "1" None empty_view
  = (inl (ValueError KeyMustNotStartWith), empty_view)
  /\ from_dict (mkDict "x.txt" 10 (Some "sha2:0")
                  [("org_x", "1", None); ("A", "1", None)])
       empty_view
     = (inr tt, set_avus empty_view [mkMeta "A" "1" None]).
Proof. split; reflexivity. Qed.

(** ** Where the code departs from its documentation *)

Lemma n_same_YMeta (m : iRODSMeta) (attrs : list attr) :
  forall val, exists n, n_same (YMeta m) attrs val = inr n.
Proof.
  induction attrs as [|a attrs IH]; intros [|v val]; simpl; eauto.
  destruct (option_eqb _ v || is_None v); eauto.
  destruct (IH val) as [n ->]. eauto.
Qed.

Lemma contains_loop_units_wildcard (k v : string) (u0 : option string)
    (l : list iRODSMeta) :
  In (mkMeta k v u0) l ->
  contains_loop (map YMeta l) [Some k; Some v; None] = inr true.
Proof.
  induction l as [|m l IH]; intros Hin; [contradiction|].
  cbn [map contains_loop].
  destruct Hin as [->|Hin].
  - simpl. now rewrite !String.eqb_refl, orb_true_r.
  - destruct (n_same_YMeta m
                (firstn (length [Some k; Some v; @None string])
                   [attr_name; attr_value; attr_units])
                [Some k; Some v; None]) as [n ->].
    destruct (Nat.eqb n _); auto.
Qed.

(** C2, the code at the input where it departs from the docstring of [add]
    ("entries are only considered the same if all of the key, value and units
    are the same").  [add(key, value)] with the units left at [None] uses the
    membership test, where [None] matches any units: as soon as the view shows
    an entry with that key and value, under whatever units, [add] raises
    "Metadata already present" and adds nothing. *)
Theorem add_without_units_duplicate_of_any_units
    (k v : string) (u0 : option string) (self : MetaData) (bl : Re.pattern) :
  blacklist self = Some bl ->
  Re.re_match bl k = false ->
  In (mkMeta k v u0) (metadata (item self)) ->
  add k v None self = (inl (ValueError MetadataAlreadyPresent), self).
Proof.
  intros Hbl Hkey Hin.
  unfold add, try_except, bind, read, contains.
  rewrite (iter_blacklist self bl Hbl).
  rewrite (contains_loop_units_wildcard k v u0); [reflexivity|].
  apply filter_In. split; [exact Hin|]. simpl. now rewrite Hkey.
Qed.

Lemma add_without_units_duplicate_of_any_units_witness :
  add "mass" "10" None mass_in_kg
  = (inl (ValueError MetadataAlreadyPresent), mass_in_kg).
Proof.
  apply (add_without_units_duplicate_of_any_units
           "mass" "10" (Some "kg") mass_in_kg default_blacklist);
    [reflexivity | reflexivity | left; reflexivity].
Defined.

(** C3, the code at an entry that carries units.  With the [units] argument
    omitted the existence check passes on key and value alone, the
    replacement is added without units, and the delete of the original asks
    for the empty unit: it finds nothing and raises [KeyError].  The call
    fails and leaves both the original and a unit-less replacement. *)
Theorem update_without_units_on_entry_with_units :
  fst (update_checks "mass" "10" None (Some "11") None mass_in_kg) = inr tt
  /\ update "mass" "10" None (Some "11") None mass_in_kg
     = (inl KeyError,
        set_avus mass_in_kg
          [mkMeta "mass" "10" (Some "kg"); mkMeta "mass" "11" None]).
Proof. split; reflexivity. Qed.

(** On an entry without units the same call does replace the entry. *)
Example update_without_units_on_entry_without_units :
  update "mass" "10" None (Some "11") None
    (MetaData_init (example_item [mkMeta "mass" "10" None; mkMeta "B" "7" None]))
  = (inr tt,
     MetaData_init (example_item [mkMeta "B" "7" None; mkMeta "mass" "11" None])).
Proof. reflexivity. Qed.

(** C4, the code on an empty target set.  As soon as the value or the units
    is left at the Ellipsis, [delete] loops over [get_all(key)] and removes
    what matches; when nothing is stored under [key] the loop body never runs
    and [delete] returns normally, the view untouched. *)
Theorem delete_wildcard_on_absent_key_succeeds
    (key : string) (value : arg string) (units : arg (option string))
    (self : MetaData) :
  metadata_get_all key self = [] ->
  is_Ellipsis value || is_Ellipsis units = true ->
  delete key value units self = (inr tt, self).
Proof.
  intros Hnone Hwild. unfold delete, try_except, bind, read.
  destruct value, units; try discriminate Hwild; now rewrite Hnone.
Qed.

Lemma delete_wildcard_on_absent_key_succeeds_witness :
  delete "A" Ellipsis Ellipsis mass_in_kg = (inr tt, mass_in_kg)
  /\ delete "A" (Given "1") Ellipsis mass_in_kg = (inr tt, mass_in_kg).
Proof.
  split.
  - apply (delete_wildcard_on_absent_key_succeeds "A" Ellipsis Ellipsis mass_in_kg);
      reflexivity.
  - apply (delete_wildcard_on_absent_key_succeeds "A" (Given "1") Ellipsis
             mass_in_kg); reflexivity.
Defined.

(** The exact-triplet branch of [delete] on the same view, for comparison:
    the catalog reports that nothing was removed and [delete] raises
    [KeyError]. *)
Lemma delete_exact_on_absent_triplet_raises :
  delete "A" (Given "1") (Given None) mass_in_kg = (inl KeyError, mass_in_kg).
Proof. reflexivity. Qed.

(** C5, the code with a [None] blacklist.  The first thing iteration yields
    is the list of all entries, as one object; the entries follow one by
    one.  The length is therefore one more than the number of entries. *)
Theorem iter_without_blacklist_yields_listing_first (it : Item) :
  iter (mkMetaData it None) = YItems (metadata it) :: map YMeta (metadata it)
  /\ len (mkMetaData it None) = S (length (metadata it)).
Proof.
  assert (H : iter (mkMetaData it None)
              = YItems (metadata it) :: map YMeta (metadata it)).
  { unfold iter, metadata_items. simpl.
    f_equal; induction (metadata it) as [|m l IH]; simpl; congruence. }
  split; [exact H|].
  unfold len. rewrite H. simpl. now rewrite length_map.
Qed.

(** C6, the default pattern [^org_*].  The star applies to the underscore
    alone, so the pattern matches every name that starts with [org]; an entry
    named [organism] is not yielded, not exported and not cleared. *)
Theorem default_blacklist_matches_prefix_org :
  (forall s : string,
      Re.re_match default_blacklist s = true <-> exists rest, s = "org" ++ rest)
  /\ (let v := MetaData_init (example_item [mkMeta "organism" "yeast" None]) in
      iter v = []
      /\ to_dict v None = inr (mkDict "x.txt" 10 (Some "sha2:0") [])
      /\ clear v = (inr tt, v)).
Proof.
  split; [|repeat split].
  intros s. split.
  - unfold Re.re_match, default_blacklist.
    destruct s as [|c1 [|c2 [|c3 s]]]; cbn -[Ascii.eqb]; intros H;
      try discriminate H;
      repeat match type of H with
        | (_ && _)%bool = true => apply andb_true_iff in H as [? H]
        end;
      try discriminate.
    repeat match goal with
      | E : Ascii.eqb _ _ = true |- _ => apply Ascii.eqb_eq in E; subst
      end.
    exists s. reflexivity.
  - intros [rest ->]. reflexivity.
Qed.

(** ** Recursive export *)

(** Induction over a collection tree along [subcollections]. *)
Lemma Item_subcollections_ind (P : Item -> Prop) :
  (forall it, Forall P (subcollections it) -> P it) ->
  forall it, P it.
Proof.
  intros step. fix IH 1.
  intros [n i p k c m a objs subs]. apply step. simpl.
  induction subs as [|s subs IHsubs]; constructor; [apply IH | exact IHsubs].
Qed.

Lemma triplets_total (l : list iRODSMeta) (keys : option (list string)) :
  exists ts, triplets (map YMeta l) keys = inr ts.
Proof.
  induction l as [|m l [ts IH]]; simpl; eauto.
  rewrite IH. simpl. eauto.
Qed.

Lemma to_dict_total (self : MetaData) (bl : Re.pattern)
    (keys : option (list string)) :
  blacklist self = Some bl -> exists d, to_dict self keys = inr d.
Proof.
  intros Hbl. unfold to_dict. rewrite (iter_blacklist self bl Hbl).
  destruct (triplets_total
              (filter (fun m => negb (Re.re_match bl (name m)))
                 (metadata (item self))) keys) as [ts ->].
  simpl. eauto.
Qed.

Lemma record_of_total (coll_path : string) (x : Item) :
  exists d,
    to_dict (MetaData_init x) None = inr d
    /\ record_of coll_path x
       = inr (mkRecord (item_name x) (item_id x) (rel_path coll_path x) d).
Proof.
  destruct (to_dict_total (MetaData_init x) default_blacklist None eq_refl)
    as [d Hd].
  exists d. split; [exact Hd|]. unfold record_of. now rewrite Hd.
Qed.

Lemma rmap_record_of (coll_path : string) (l : list Item) :
  exists rs,
    rmap (record_of coll_path) l = inr rs
    /\ forall x r, In x l -> record_of coll_path x = inr r -> In r rs.
Proof.
  induction l as [|x l (rs & Hrs & Hin)]; simpl.
  - exists []. split; [reflexivity | intros ? ? []].
  - destruct (record_of_total coll_path x) as (d & _ & Hx).
    rewrite Hx, Hrs. simpl. eexists. split; [reflexivity|].
    intros y r [<-|Hy] Hr.
    + left. congruence.
    + right. eauto.
Qed.

Lemma extend_complete (coll_path : string) (subs : list Item) :
  Forall walk_complete subs ->
  forall objects collections,
  exists objects' collections',
    extend (fun s => get_subcolls s (Some coll_path)) subs objects collections
    = inr (objects', collections')
    /\ (forall r, In r objects -> In r objects')
    /\ forall s o r,
        In s subs -> descendant_object o s ->
        record_of coll_path o = inr r -> In r objects'.
Proof.
  induction 1 as [|s subs Hs _ IH]; intros objects collections; simpl.
  - exists objects, collections. repeat split; auto. intros ? ? ? [].
  - destruct (Hs (Some coll_path)) as (so & sc & -> & Hso). simpl.
    destruct (IH (objects ++ so)%list (collections ++ sc)%list)
      as (objects' & collections' & -> & Hkeep & Hsubs).
    exists objects', collections'. repeat split.
    + intros r Hr. apply Hkeep, in_or_app. now left.
    + intros s' o r [<-|Hs'] Hdesc Hrec.
      * apply Hkeep, in_or_app. right. eauto.
      * eauto.
Qed.

Lemma get_subcolls_eq (coll : Item) (root : option string) :
  get_subcolls coll root
  = let coll_path := match root with Some r => r | None => item_path coll end in
    rbind (rmap (record_of coll_path) (data_objects coll)) (fun objects =>
    rbind (rmap (record_of coll_path) (subcollections coll)) (fun collections =>
    if Nat.ltb 0 (length (subcollections coll)) then
      extend (fun subcoll => get_subcolls subcoll (Some coll_path))
        (subcollections coll) objects collections
    else inr (objects, []))).
Proof. destruct coll; reflexivity. Qed.

Lemma get_subcolls_complete (coll : Item) : walk_complete coll.
Proof.
  induction coll as [coll IH] using Item_subcollections_ind.
  intros root coll_path. rewrite get_subcolls_eq. fold coll_path. cbv zeta.
  destruct (rmap_record_of coll_path (data_objects coll)) as (objs & -> & Hobjs).
  destruct (rmap_record_of coll_path (subcollections coll)) as (cols & -> & _).
  simpl rbind.
  destruct (Nat.ltb 0 (length (subcollections coll))) eqn:Hlen.
  - destruct (extend_complete coll_path _ IH objs cols)
      as (objects' & collections' & -> & Hkeep & Hsubs).
    exists objects', collections'. split; [reflexivity|].
    intros o r Hdesc Hrec. inversion Hdesc; subst; eauto.
  - exists objs, []. split; [reflexivity|].
    intros o r Hdesc Hrec. inversion Hdesc; subst; eauto.
    apply Nat.ltb_ge in Hlen.
    destruct (subcollections coll); [contradiction | simpl in Hlen; lia].
Qed.

(** C8. A recursive export of a collection (through a view whose blacklist
    is a pattern) returns a dictionary whose [dataobjects] list holds, for
    every data object at any depth below the collection, the record of that
    object with [rel_path] the object's path segments beyond the number of
    segments of the root's path, joined with ["/"].  For the root
    [/zone/home/root] with subcollection [sub] holding [x.txt], the list has
    a record with [rel_path] equal to ["sub/x.txt"]. *)
Theorem recursive_export_lists_every_descendant_object :
  (forall (meta : MetaData) (bl : Re.pattern) (keys : option (list string))
          (o : Item),
      blacklist meta = Some bl ->
      item_kind_of (item meta) = Collection ->
      descendant_object o (item meta) ->
      exists x objects d,
        export_metadata_to_dict meta true keys = inr x
        /\ x_dataobjects x = Some objects
        /\ to_dict (MetaData_init o) None = inr d
        /\ In (mkRecord (item_name o) (item_id o)
                 (String.concat "/"
                    (skipn (length (parts (item_path (item meta))))
                       (parts (item_path o))))
                 d)
              objects)
  /\ (exists x objects r,
        export_metadata_to_dict (MetaData_init example_root) true None = inr x
        /\ x_dataobjects x = Some objects
        /\ In r objects
        /\ r_name r = "x.txt"
        /\ r_rel_path r = "sub/x.txt").
Proof.
  split.
  - intros meta bl keys o Hbl Hkind Hdesc.
    unfold export_metadata_to_dict, is_dataobject, is_collection.
    rewrite Hkind.
    destruct (to_dict_total meta bl keys Hbl) as [md ->]. simpl rbind.
    destruct (get_subcolls_complete (item meta) (Some (item_path (item meta))))
      as (objects & collections & -> & Hall).
    destruct (record_of_total (item_path (item meta)) o) as (d & Hd & Hrec).
    exists (mkExport md (Some collections) (Some objects)), objects, d.
    repeat split; auto.
    apply (Hall o _ Hdesc Hrec).
  - do 3 eexists. split; [reflexivity|]. split; [reflexivity|].
    split; [left; reflexivity|]. split; reflexivity.
Qed.

Lemma recursive_export_lists_every_descendant_object_witness :
  exists x objects d,
    export_metadata_to_dict (MetaData_init example_root) true None = inr x
    /\ x_dataobjects x = Some objects
    /\ to_dict
         (MetaData_init
            (mkItem "x.txt" 3 "/zone/home/root/sub/x.txt" DataObject "sha2:0"
               [mkMeta "Author" "Ben" None] true [] []))
         None = inr d
    /\ In (mkRecord "x.txt" 3 "sub/x.txt" d) objects.
Proof.
  apply (proj1 recursive_export_lists_every_descendant_object
           (MetaData_init example_root) default_blacklist None
           (mkItem "x.txt" 3 "/zone/home/root/sub/x.txt" DataObject "sha2:0"
              [mkMeta "Author" "Ben" None] true [] [])).
  - reflexivity.
  - reflexivity.
  - apply deeper_object
      with (s := mkItem "sub" 2 "/zone/home/root/sub" Collection "" [] true
                   [mkItem "x.txt" 3 "/zone/home/root/sub/x.txt" DataObject
                      "sha2:0" [mkMeta "Author" "Ben" None] true [] []]
                   []).
    + left. reflexivity.
    + apply child_object. left. reflexivity.
Defined.

(* ================================================================== *)
(** * Further properties of [meta.py] *)
(* ================================================================== *)

(** ** Loops that remove entries *)

Lemma bind_ret_tt (k : unit -> M unit) (self : MetaData) :
  bind (ret tt) k self = k tt self.
Proof. reflexivity. Qed.

Lemma for_each_filter_if {A} (p q : A -> bool) (body : A -> M unit)
    (l : list A) (self : MetaData) :
  for_each (filter p l) (fun x => if q x then body x else ret tt) self
  = for_each (filter (fun x => p x && q x) l) body self.
Proof.
  revert self. induction l as [|x l IH]; intros self; simpl; [reflexivity|].
  destruct (p x); simpl; [|apply IH].
  destruct (q x); simpl.
  - unfold bind. destruct (body x self) as [[e|[]] self1]; [reflexivity|apply IH].
  - rewrite bind_ret_tt. apply IH.
Qed.

Lemma for_each_map {A B} (f : A -> B) (body : B -> M unit) (l : list A)
    (self : MetaData) :
  for_each (map f l) body self = for_each l (fun x => body (f x)) self.
Proof.
  revert self. induction l as [|x l IH]; intros self; simpl; [reflexivity|].
  unfold bind. destruct (body (f x) self) as [[e|[]] self1]; [reflexivity|apply IH].
Qed.

Lemma remove_first_unselected (sel : iRODSMeta -> bool) (e : iRODSMeta)
    (pre rest : list iRODSMeta) :
  respects_avu sel ->
  sel e = true ->
  (forall x, In x pre -> sel x = false) ->
  remove_first (same_avu (name e) (value e) (units e)) (pre ++ e :: rest)
  = (pre ++ rest)%list.
Proof.
  intros Hresp He. induction pre as [|x pre IH]; intros Hpre; simpl.
  - now rewrite same_avu_refl.
  - destruct (same_avu (name e) (value e) (units e) x) eqn:Hx.
    + pose proof (Hpre x (or_introl eq_refl)) as Hnot.
      rewrite (Hresp e x He Hx) in Hnot. discriminate Hnot.
    + f_equal. apply IH. intros y Hy. apply Hpre. now right.
Qed.

(** Removing, in their order, the selected entries of the listing removes
    each of them and nothing else, whatever lies between them. *)
Lemma remove_selected_loop (sel : iRODSMeta -> bool) (l : list iRODSMeta) :
  respects_avu sel ->
  forall (pre : list iRODSMeta) (self : MetaData),
    access (item self) = true ->
    metadata (item self) = (pre ++ l)%list ->
    (forall x, In x pre -> sel x = false) ->
    for_each (filter sel l) metadata_remove_meta self
    = (inr tt, set_avus self (pre ++ filter (fun m => negb (sel m)) l)).
Proof.
  intros Hresp.
  induction l as [|a l IH]; intros pre self Hacc Hmeta Hpre.
  - simpl. unfold ret. rewrite <- Hmeta, set_avus_same. reflexivity.
  - simpl filter. destruct (sel a) eqn:Ha; simpl negb; cbv iota.
    + assert (Hex : existsb (same_avu (name a) (value a) (units a)) (pre ++ a :: l)
                    = true).
      { apply existsb_exists. exists a. split.
        - apply in_or_app. right. now left.
        - apply same_avu_refl. }
      simpl for_each. unfold bind.
      unfold metadata_remove_meta at 1, metadata_remove.
      rewrite Hacc, Hmeta, Hex. simpl negb. cbv iota.
      rewrite (remove_first_unselected sel) by assumption.
      rewrite (IH pre); auto.
    + rewrite (IH (pre ++ [a])%list).
      * now rewrite <- app_assoc.
      * exact Hacc.
      * now rewrite <- app_assoc.
      * intros e He. apply in_app_or in He as [He|[<-|[]]]; auto.
Qed.

Lemma remove_loop_denied (l : list iRODSMeta) (self : MetaData) :
  access (item self) = false ->
  for_each l metadata_remove_meta self
  = match l with
    | [] => (inr tt, self)
    | _ :: _ => (inl (IrodsException CAT_NO_ACCESS_PERMISSION), self)
    end.
Proof.
  intros Hacc. destruct l as [|a l]; [reflexivity|].
  simpl. unfold bind, metadata_remove_meta, metadata_remove.
  now rewrite Hacc.
Qed.

Lemma delete_selects_respects (key : string) (value : arg string)
    (units : arg (option string)) :
  is_Ellipsis value || is_Ellipsis units = true ->
  respects_avu (delete_selects key value units).
Proof.
  intros Hwild e x He Hsame. unfold delete_selects, named in *.
  unfold same_avu in Hsame.
  apply andb_true_iff in Hsame as [Hsame _].
  apply andb_true_iff in Hsame as [Hn Hv].
  apply String.eqb_eq in Hn, Hv.
  destruct value as [|v], units as [|u]; simpl in *; try discriminate;
    rewrite ?andb_true_r, ?orb_false_r in *; congruence.
Qed.

(** The wildcard branch of [delete] as one loop over the selected entries. *)
Lemma delete_wildcard_loop (key : string) (value : arg string)
    (units : arg (option string)) (self : MetaData) :
  is_Ellipsis value || is_Ellipsis units = true ->
  delete key value units self
  = try_except
      (for_each (filter (delete_selects key value units) (metadata (item self)))
         metadata_remove_meta)
      (fun e =>
         match e with
         | IrodsException CAT_SUCCESS_BUT_WITH_NO_INFO => Some (raise KeyError)
         | IrodsException CAT_NO_ACCESS_PERMISSION =>
             Some (raise (ValueError InsufficientPermission))
         | _ => None
         end)
      self.
Proof.
  intros Hwild. unfold delete, try_except, bind, read, metadata_get_all.
  destruct value as [|v], units as [|u]; try discriminate Hwild;
    now rewrite for_each_filter_if.
Qed.

(** ** [delete] *)

(** X1. [delete(key, value)], the units left at the Ellipsis, on an item the
    session may modify: it succeeds and removes exactly the entries with that
    key and that value, whatever their units; every other entry stays, in
    its place. *)
Theorem delete_key_value_removes_all_units
    (key v : string) (self : MetaData) :
  access (item self) = true ->
  delete key (Given v) Ellipsis self
  = (inr tt,
     set_avus self
       (filter (fun m => negb (String.eqb (name m) key && String.eqb v (value m)))
          (metadata (item self)))).
Proof.
  intros Hacc. rewrite delete_wildcard_loop by reflexivity.
  unfold try_except.
  rewrite (remove_selected_loop (delete_selects key (Given v) Ellipsis)
             (metadata (item self))
             (delete_selects_respects key (Given v) Ellipsis eq_refl)
             [] self Hacc eq_refl) by (intros ? []).
  simpl app. do 2 f_equal. apply filter_ext. intros m.
  unfold delete_selects, named. simpl.
  now rewrite andb_true_r, orb_false_r.
Qed.

Lemma delete_key_value_removes_all_units_witness :
  delete "mass" (Given "10") Ellipsis mass_in_two_units
  = (inr tt, set_avus mass_in_two_units [mkMeta "mass" "12" None]).
Proof.
  apply (delete_key_value_removes_all_units "mass" "10" mass_in_two_units).
  reflexivity.
Defined.

(** X2. A [delete] that fails has removed nothing, and it fails in one of
    two ways only: with [KeyError], or with the [ValueError] about
    insufficient permission.  In particular it never raises
    [PermissionError], and a wildcard delete never stops half way. *)
Theorem delete_failure_changes_nothing
    (key : string) (value : arg string) (units : arg (option string))
    (self self' : MetaData) (e : exn) :
  delete key value units self = (inl e, self') ->
  self' = self
  /\ (e = KeyError \/ e = ValueError InsufficientPermission).
Proof.
  destruct (is_Ellipsis value || is_Ellipsis units) eqn:Hwild.
  - rewrite delete_wildcard_loop by exact Hwild. unfold try_except.
    destruct (access (item self)) eqn:Hacc.
    + rewrite (remove_selected_loop (delete_selects key value units)
                 (metadata (item self))
                 (delete_selects_respects key value units Hwild)
                 [] self Hacc eq_refl) by (intros ? []).
      discriminate.
    + rewrite remove_loop_denied by exact Hacc.
      destruct (filter _ _); [discriminate|].
      unfold raise. intros H. inversion H. auto.
  - destruct value as [|v], units as [|u]; try discriminate Hwild.
    unfold delete, try_except, metadata_remove, raise.
    destruct (negb (access (item self))).
    + intros H. inversion H. auto.
    + destruct (existsb _ _); [discriminate|].
      intros H. inversion H. auto.
Qed.

Lemma delete_failure_changes_nothing_witness :
  read_only_with_A = read_only_with_A
  /\ (ValueError InsufficientPermission = KeyError
      \/ ValueError InsufficientPermission = ValueError InsufficientPermission).
Proof.
  apply (delete_failure_changes_nothing "A" Ellipsis Ellipsis
           read_only_with_A read_only_with_A).
  reflexivity.
Defined.

(** ** [clear] *)

Lemma visible_respects (bl : Re.pattern) : respects_avu (visible bl).
Proof.
  intros e x He Hsame. apply same_avu_name in Hsame.
  unfold visible in *. now rewrite Hsame.
Qed.

Lemma clear_loop (self : MetaData) (bl : Re.pattern) :
  blacklist self = Some bl ->
  clear self
  = for_each (filter (visible bl) (metadata (item self))) metadata_remove_meta self.
Proof.
  intros Hbl. unfold clear, bind, read.
  rewrite (iter_blacklist self bl Hbl). now rewrite for_each_map.
Qed.

Lemma clear_on_filtered_view (self : MetaData) (bl : Re.pattern) :
  blacklist self = Some bl ->
  access (item self) = true ->
  clear self
  = (inr tt,
     set_avus self
       (filter (fun m => negb (visible bl m)) (metadata (item self)))).
Proof.
  intros Hbl Hacc. rewrite (clear_loop self bl Hbl).
  now rewrite (remove_selected_loop (visible bl) (metadata (item self))
                 (visible_respects bl) [] self Hacc eq_refl) by (intros ? []).
Qed.

(** X3. [clear] on a view with a pattern for a blacklist, on an item the
    session may modify: it succeeds, removes every entry whose name the
    pattern does not match, and keeps exactly the blacklisted entries, in
    their order; the view is empty afterwards. *)
Theorem clear_keeps_exactly_the_blacklisted
    (self : MetaData) (bl : Re.pattern) :
  blacklist self = Some bl ->
  access (item self) = true ->
  let kept := filter (fun m => Re.re_match bl (name m)) (metadata (item self)) in
  clear self = (inr tt, set_avus self kept)
  /\ len (set_avus self kept) = 0.
Proof.
  intros Hbl Hacc kept.
  assert (Hkept : filter (fun m => negb (visible bl m)) (metadata (item self))
                  = kept).
  { apply filter_ext. intros m. unfold visible. apply negb_involutive. }
  split.
  - rewrite (clear_on_filtered_view self bl Hbl Hacc). now rewrite Hkept.
  - unfold len. rewrite (iter_blacklist (set_avus self kept) bl Hbl).
    rewrite length_map. simpl. unfold kept. clear Hkept kept.
    induction (metadata (item self)) as [|m l IH]; simpl; [reflexivity|].
    destruct (Re.re_match bl (name m)) eqn:Hm; simpl; rewrite ?Hm; simpl; auto.
Qed.

Lemma clear_keeps_exactly_the_blacklisted_witness :
  clear with_system_entries
  = (inr tt,
     set_avus with_system_entries
       [mkMeta "org_id" "7" None; mkMeta "org_lock" "1" None])
  /\ len (set_avus with_system_entries
            [mkMeta "org_id" "7" None; mkMeta "org_lock" "1" None]) = 0.
Proof.
  apply (clear_keeps_exactly_the_blacklisted with_system_entries default_blacklist);
    reflexivity.
Defined.

(** X4. When [clear] fails on a view with a pattern for a blacklist, the
    session has no access to the item, nothing has been removed, and the
    exception is the catalog's own [CAT_NO_ACCESS_PERMISSION]: [clear] has no
    handler that would turn it into a [PermissionError]. *)
Theorem clear_failure_is_untranslated
    (self self' : MetaData) (bl : Re.pattern) (e : exn) :
  blacklist self = Some bl ->
  clear self = (inl e, self') ->
  e = IrodsException CAT_NO_ACCESS_PERMISSION
  /\ self' = self
  /\ access (item self) = false.
Proof.
  intros Hbl. rewrite (clear_loop self bl Hbl).
  destruct (access (item self)) eqn:Hacc.
  - rewrite (remove_selected_loop (visible bl) (metadata (item self))
               (visible_respects bl) [] self Hacc eq_refl) by (intros ? []).
    discriminate.
  - rewrite remove_loop_denied by exact Hacc.
    destruct (filter _ _); [discriminate|].
    intros H. inversion H. auto.
Qed.

Lemma clear_failure_is_untranslated_witness :
  IrodsException CAT_NO_ACCESS_PERMISSION = IrodsException CAT_NO_ACCESS_PERMISSION
  /\ read_only_with_A = read_only_with_A
  /\ access (item read_only_with_A) = false.
Proof.
  apply (clear_failure_is_untranslated read_only_with_A read_only_with_A
           default_blacklist);
    reflexivity.
Defined.

(** ** Membership *)

Lemma contains_loop_key (k : string) (l : list iRODSMeta) :
  contains_loop (map YMeta l) [Some k]
  = inr (existsb (fun m => String.eqb (name m) k) l).
Proof.
  induction l as [|m l IH]; simpl; [reflexivity|].
  destruct (String.eqb (name m) k); simpl; [reflexivity|exact IH].
Qed.

Lemma contains_loop_key_value (k v : string) (l : list iRODSMeta) :
  contains_loop (map YMeta l) [Some k; Some v]
  = inr (existsb (fun m => String.eqb (name m) k && String.eqb (value m) v) l).
Proof.
  induction l as [|m l IH]; simpl; [reflexivity|].
  destruct (String.eqb (name m) k); simpl; [|exact IH].
  destruct (String.eqb (value m) v); simpl; [reflexivity|exact IH].
Qed.

Lemma contains_loop_triplet (k v : string) (u : option string)
    (l : list iRODSMeta) :
  contains_loop (map YMeta l) [Some k; Some v; u]
  = inr (existsb (fun m => String.eqb (name m) k && String.eqb (value m) v
                           && (option_eqb (units m) u || is_None u)) l).
Proof.
  induction l as [|m l IH]; simpl; [reflexivity|].
  destruct (String.eqb (name m) k); simpl; [|exact IH].
  destruct (String.eqb (value m) v); simpl; [|exact IH].
  destruct (option_eqb (units m) u || is_None u); simpl; [reflexivity|exact IH].
Qed.

Lemma existsb_pointwise {A} (f g : A -> bool) (l : list A) :
  (forall x, f x = g x) -> existsb f l = existsb g l.
Proof.
  intros Hfg. induction l as [|x l IH]; simpl; [reflexivity|].
  now rewrite Hfg, IH.
Qed.

Lemma contains_queries
    (self : MetaData) (bl : Re.pattern) (k v u : string) :
  blacklist self = Some bl ->
  contains self [Some k]
  = inr (existsb (fun m => String.eqb (name m) k) (visible_entries bl self))
  /\ contains self [Some k; Some v]
     = inr (existsb (fun m => String.eqb (name m) k && String.eqb (value m) v)
              (visible_entries bl self))
  /\ contains self [Some k; Some v; Some u]
     = inr (existsb (fun m => String.eqb (name m) k && String.eqb (value m) v
                              && option_eqb (units m) (Some u))
              (visible_entries bl self))
  /\ contains self [Some k; Some v; None] = contains self [Some k; Some v].
Proof.
  intros Hbl. unfold contains, visible_entries.
  rewrite (iter_blacklist self bl Hbl). fold (visible bl).
  rewrite contains_loop_key, contains_loop_key_value, !contains_loop_triplet.
  repeat split; f_equal; apply existsb_pointwise; intros m; simpl;
    now rewrite ?orb_false_r, ?orb_true_r, ?andb_true_r.
Qed.

(** X5. Membership on a view with a pattern for a blacklist never raises
    and looks only at the entries the pattern lets through: a key is in the
    view when such an entry has that name; a (key, value) pair when such an
    entry has that name and value, whatever its units; a triplet with units
    [u] when such an entry has that name, that value and exactly the units
    [u]; and a triplet whose units are [None] is the (key, value) test
    again. *)
Theorem contains_on_filtered_view
    (self : MetaData) (bl : Re.pattern) (k v u : string) :
  blacklist self = Some bl ->
  contains self [Some k]
  = inr (existsb (fun m => String.eqb (name m) k) (visible_entries bl self))
  /\ contains self [Some k; Some v]
     = inr (existsb (fun m => String.eqb (name m) k && String.eqb (value m) v)
              (visible_entries bl self))
  /\ contains self [Some k; Some v; Some u]
     = inr (existsb (fun m => String.eqb (name m) k && String.eqb (value m) v
                              && option_eqb (units m) (Some u))
              (visible_entries bl self))
  /\ contains self [Some k; Some v; None] = contains self [Some k; Some v].
Proof. exact (contains_queries self bl k v u). Qed.

Lemma contains_on_filtered_view_witness :
  contains with_system_entries [Some "mass"] = inr true
  /\ contains with_system_entries [Some "mass"; Some "10"] = inr true
  /\ contains with_system_entries [Some "mass"; Some "10"; Some "g"] = inr false
  /\ contains with_system_entries [Some "mass"; Some "10"; None]
     = contains with_system_entries [Some "mass"; Some "10"].
Proof.
  apply (contains_on_filtered_view with_system_entries default_blacklist
           "mass" "10" "g").
  reflexivity.
Defined.

Lemma visible_key_free (self : MetaData) (bl : Re.pattern) (k : string) :
  Re.re_match bl k = true ->
  key_free k (visible_entries bl self).
Proof.
  intros Hk e He. apply filter_In in He as [_ He]. unfold visible in He.
  destruct (String.eqb (name e) k) eqn:Hn; [|reflexivity].
  apply String.eqb_eq in Hn. rewrite Hn, Hk in He. discriminate.
Qed.

(** X6. A key that the blacklist pattern matches is never in the view,
    alone or with a value and units, even when the item carries it. *)
Theorem contains_blacklisted_key_is_false
    (self : MetaData) (bl : Re.pattern) (k : string)
    (rest : list (option string)) :
  blacklist self = Some bl ->
  Re.re_match bl k = true ->
  contains self (Some k :: rest) = inr false.
Proof.
  intros Hbl Hk. unfold contains. rewrite (iter_blacklist self bl Hbl).
  apply contains_key_free. now apply (visible_key_free self).
Qed.

Lemma contains_blacklisted_key_is_false_witness :
  contains with_system_entries [Some "org_id"; Some "7"] = inr false.
Proof.
  apply (contains_blacklisted_key_is_false with_system_entries default_blacklist
           "org_id" [Some "7"]); reflexivity.
Defined.

Lemma n_same_bound (y : yielded) (attrs : list attr) :
  forall val n, n_same y attrs val = inr n -> n <= length attrs.
Proof.
  induction attrs as [|a attrs IH]; intros [|v val] n; simpl;
    try (intros H; inversion H; lia).
  destruct (getattr y a) as [e|x]; [discriminate|].
  destruct (option_eqb x v || is_None v); [|intros H; inversion H; lia].
  destruct (n_same y attrs val) as [e|n'] eqn:Hn; [discriminate|].
  intros H. inversion H. specialize (IH val n' Hn). lia.
Qed.

(** X7. A query of more than three components matches nothing: only the
    name, the value and the units are compared, so the count of equal
    components never reaches the length of the query. *)
Theorem contains_long_query_is_false
    (self : MetaData) (bl : Re.pattern) (val : list (option string)) :
  blacklist self = Some bl ->
  3 < length val ->
  contains self val = inr false.
Proof.
  intros Hbl Hlen. unfold contains. rewrite (iter_blacklist self bl Hbl).
  induction (filter _ _) as [|m l IH]; simpl; [reflexivity|].
  destruct (n_same_YMeta m
              (firstn (length val) [attr_name; attr_value; attr_units]) val)
    as [n Hn].
  rewrite Hn. apply n_same_bound in Hn. rewrite length_firstn in Hn.
  simpl length in Hn.
  replace (Nat.eqb n (length val)) with false; [exact IH|].
  symmetry. apply Nat.eqb_neq. lia.
Qed.

Lemma contains_long_query_is_false_witness :
  contains with_system_entries [Some "mass"; Some "10"; Some "kg"; None]
  = inr false.
Proof.
  apply (contains_long_query_is_false with_system_entries default_blacklist);
    [reflexivity | simpl; lia].
Defined.

(** X8. A view built with [blacklist = None] cannot be used: iteration
    yields the listing itself first, which has no [name] and no [units], so
    every non-empty membership test, [to_dict], the string representation and
    [add] raise [AttributeError], and [add] leaves the item as it was. *)
Theorem view_without_blacklist_raises_AttributeError
    (it : Item) (q : option string) (rest : list (option string))
    (keys : option (list string)) (k v : string) (u : option string) :
  let self := mkMetaData it None in
  contains self (q :: rest) = inl AttributeError
  /\ to_dict self keys = inl AttributeError
  /\ str self = inl AttributeError
  /\ add k v u self = (inl AttributeError, self).
Proof.
  repeat split.
Qed.

(** ** [add] *)

(** The checks of [add] on a view with a pattern for a blacklist, in the
    order the code makes them. *)
Lemma add_on_filtered_view (k v : string) (u : option string)
    (self : MetaData) (bl : Re.pattern) :
  blacklist self = Some bl ->
  add k v u self
  = if existsb (fun m => String.eqb (name m) k && String.eqb (value m) v
                         && (option_eqb (units m) u || is_None u))
         (visible_entries bl self)
    then (inl (ValueError MetadataAlreadyPresent), self)
    else if Re.re_match bl k then (inl (ValueError KeyMustNotStartWith), self)
    else if negb (access (item self)) then (inl PermissionError, self)
    else if existsb (same_avu k v u) (metadata (item self))
    then (inl (IrodsException CATALOG_ALREADY_HAS_ITEM_BY_THAT_NAME), self)
    else (inr tt,
          set_avus self
            (metadata (item self) ++ [mkMeta k v (norm_units u)])).
Proof.
  intros Hbl. unfold add, try_except, bind, read, contains, visible_entries.
  rewrite (iter_blacklist self bl Hbl). fold (visible bl).
  rewrite contains_loop_triplet.
  destruct (existsb _ (filter (visible bl) _)); [reflexivity|].
  rewrite Hbl. destruct (Re.re_match bl k); [reflexivity|].
  unfold metadata_add.
  destruct (negb (access (item self))); [reflexivity|].
  destruct (existsb (same_avu k v u) (metadata (item self))); reflexivity.
Qed.

Lemma add_blacklisted
    (k v : string) (u : option string) (self : MetaData) (bl : Re.pattern) :
  blacklist self = Some bl ->
  Re.re_match bl k = true ->
  add k v u self = (inl (ValueError KeyMustNotStartWith), self).
Proof.
  intros Hbl Hk. rewrite (add_on_filtered_view k v u self bl Hbl).
  replace (existsb _ (visible_entries bl self)) with false; [now rewrite Hk|].
  symmetry. pose proof (visible_key_free self bl k Hk) as Hfree.
  induction (visible_entries bl self) as [|m l IH]; simpl; [reflexivity|].
  rewrite (Hfree m (or_introl eq_refl)). simpl.
  apply IH. intros e He. apply Hfree. now right.
Qed.

(** X9. [add] under a key that the blacklist pattern matches always fails
    with the [ValueError] about the key, and changes nothing, whether or not
    the item already carries the triplet and whether or not the session may
    modify the item. *)
Theorem add_blacklisted_key_is_rejected
    (k v : string) (u : option string) (self : MetaData) (bl : Re.pattern) :
  blacklist self = Some bl ->
  Re.re_match bl k = true ->
  add k v u self = (inl (ValueError KeyMustNotStartWith), self).
Proof. exact (add_blacklisted k v u self bl). Qed.

Lemma add_blacklisted_key_is_rejected_witness :
  add "org_id" "7" None with_system_entries
  = (inl (ValueError KeyMustNotStartWith), with_system_entries).
Proof.
  apply (add_blacklisted_key_is_rejected "org_id" "7" None with_system_entries
           default_blacklist); reflexivity.
Defined.

(** X10. An [add] that succeeds has appended exactly one entry, the new
    triplet, after all the entries the item had; none of them is removed,
    changed or moved. *)
Theorem add_success_appends_one_entry
    (k v : string) (u : option string) (self self' : MetaData) :
  add k v u self = (inr tt, self') ->
  metadata (item self')
  = (metadata (item self) ++ [mkMeta k v (norm_units u)])%list
  /\ self' = set_avus self (metadata (item self'))
  /\ access (item self) = true.
Proof.
  destruct (blacklist self) as [bl|] eqn:Hbl.
  - rewrite (add_on_filtered_view k v u self bl Hbl).
    destruct (existsb _ (visible_entries bl self)); [discriminate|].
    destruct (Re.re_match bl k); [discriminate|].
    destruct (access (item self)); simpl; [|discriminate].
    destruct (existsb _ (metadata (item self))); [discriminate|].
    intros H. inversion H. simpl. auto.
  - unfold add, try_except, bind, read, contains, iter. rewrite Hbl.
    simpl. discriminate.
Qed.

Lemma add_success_appends_one_entry_witness :
  metadata (item (set_avus mass_in_kg
                    [mkMeta "mass" "10" (Some "kg"); mkMeta "mass" "10" (Some "g")]))
  = [mkMeta "mass" "10" (Some "kg"); mkMeta "mass" "10" (Some "g")]
  /\ set_avus mass_in_kg
       [mkMeta "mass" "10" (Some "kg"); mkMeta "mass" "10" (Some "g")]
     = set_avus mass_in_kg
         (metadata (item (set_avus mass_in_kg
                            [mkMeta "mass" "10" (Some "kg");
                             mkMeta "mass" "10" (Some "g")])))
  /\ access (item mass_in_kg) = true.
Proof.
  apply (add_success_appends_one_entry "mass" "10" (Some "g") mass_in_kg).
  reflexivity.
Defined.

Lemma existsb_app_r {A} (f : A -> bool) (l : list A) (x : A) :
  f x = true -> existsb f (l ++ [x]) = true.
Proof.
  intros Hx. rewrite existsb_app. simpl. rewrite Hx. apply orb_true_r.
Qed.

Lemma add_again
    (k v : string) (u : option string) (self self' : MetaData) :
  add k v u self = (inr tt, self') ->
  exists e,
    add k v u self' = (inl e, self')
    /\ (e = ValueError MetadataAlreadyPresent
        \/ (u = Some ""
            /\ e = IrodsException CATALOG_ALREADY_HAS_ITEM_BY_THAT_NAME)).
Proof.
  destruct (blacklist self) as [bl|] eqn:Hbl.
  - rewrite (add_on_filtered_view k v u self bl Hbl).
    destruct (existsb _ (visible_entries bl self)); [discriminate|].
    destruct (Re.re_match bl k) eqn:Hk; [discriminate|].
    destruct (access (item self)) eqn:Hacc; simpl; [|discriminate].
    destruct (existsb _ (metadata (item self))); [discriminate|].
    intros H. inversion H. clear H.
    rewrite (add_on_filtered_view k v u _ bl) by exact Hbl.
    set (new := mkMeta k v (norm_units u)).
    assert (Hvis : visible_entries bl (set_avus self (metadata (item self) ++ [new]))
                   = (visible_entries bl self ++ [new])%list).
    { unfold visible_entries. simpl. rewrite filter_app. simpl.
      unfold visible at 2. simpl. now rewrite Hk. }
    rewrite Hvis, Hk. simpl metadata. simpl access. rewrite Hacc. simpl negb.
    assert (Hcat : existsb (same_avu k v u) (metadata (item self) ++ [new]) = true).
    { apply existsb_app_r. unfold same_avu, new. simpl.
      rewrite !String.eqb_refl. simpl.
      destruct u as [[|c s]|]; simpl; auto using String.eqb_refl.
      now rewrite Ascii.eqb_refl, String.eqb_refl. }
    rewrite Hcat.
    destruct u as [[|c s]|].
    + destruct (existsb _ (visible_entries bl self ++ [new])); eauto.
    + rewrite existsb_app_r; eauto.
      unfold new. simpl. rewrite !String.eqb_refl, ?Ascii.eqb_refl. simpl.
      rewrite ?String.eqb_refl, ?orb_false_r, ?orb_true_r. reflexivity.
    + rewrite existsb_app_r; eauto.
      unfold new. simpl. now rewrite !String.eqb_refl.
  - unfold add, try_except, bind, read, contains, iter. rewrite Hbl.
    simpl. discriminate.
Qed.

(** X11. [add] is not idempotent: right after a successful [add], the same
    [add] fails and changes nothing.  It fails with "Metadata already
    present", except for the empty unit string, which the membership test
    does not find among entries listed without units, so that the catalog's
    own refusal comes through. *)
Theorem add_twice_fails
    (k v : string) (u : option string) (self self' : MetaData) :
  add k v u self = (inr tt, self') ->
  exists e,
    add k v u self' = (inl e, self')
    /\ (e = ValueError MetadataAlreadyPresent
        \/ (u = Some ""
            /\ e = IrodsException CATALOG_ALREADY_HAS_ITEM_BY_THAT_NAME)).
Proof. exact (add_again k v u self self'). Qed.

Lemma add_twice_fails_witness :
  exists e,
    add "B" "2" None (set_avus mass_in_kg
                        [mkMeta "mass" "10" (Some "kg"); mkMeta "B" "2" None])
    = (inl e, set_avus mass_in_kg
                [mkMeta "mass" "10" (Some "kg"); mkMeta "B" "2" None])
    /\ (e = ValueError MetadataAlreadyPresent
        \/ (@None string = Some ""
            /\ e = IrodsException CATALOG_ALREADY_HAS_ITEM_BY_THAT_NAME)).
Proof.
  apply (add_twice_fails "B" "2" None mass_in_kg). reflexivity.
Defined.

(** ** [update] *)

Lemma remove_first_app {A} (f : A -> bool) (l l' : list A) :
  existsb f l = true ->
  remove_first f (l ++ l') = (remove_first f l ++ l')%list.
Proof.
  induction l as [|x l IH]; simpl; [discriminate|].
  destruct (f x); simpl; [reflexivity|].
  intros H. now rewrite IH.
Qed.

Lemma option_eqb_neq (a b : option string) : a <> b -> option_eqb a b = false.
Proof.
  destruct a as [x|], b as [y|]; simpl; intros H; try reflexivity.
  - apply String.eqb_neq. congruence.
  - congruence.
Qed.

Lemma option_eqb_eq (a b : option string) : option_eqb a b = true -> a = b.
Proof.
  destruct a as [x|], b as [y|]; simpl; intros H; try discriminate.
  - apply String.eqb_eq in H. congruence.
  - reflexivity.
Qed.

Lemma option_eqb_refl (a : option string) : option_eqb a a = true.
Proof. destruct a; simpl; auto using String.eqb_refl. Qed.

(** An entry that matches a triplet with given units is the AVU that the
    triplet addresses on the catalog. *)
Lemma match_units_same_avu (k v ru : string) (m : iRODSMeta) :
  String.eqb (name m) k && String.eqb (value m) v
  && (option_eqb (units m) (Some ru) || is_None (Some ru)) = true ->
  same_avu k v (Some ru) m = true.
Proof.
  rewrite orb_false_r. intros H.
  apply andb_true_iff in H as [H Hu]. unfold same_avu. rewrite H.
  apply option_eqb_eq in Hu. rewrite Hu. apply option_eqb_refl.
Qed.

(** X12. [update] of an entry named with its (non-empty) units, on a view
    with a pattern for a blacklist that does not match the key and an item
    the session may modify: when the replacement triplet (new value if given,
    else the old one; new units if given, else the old ones) is not on the
    item yet, [update] succeeds, the original entry is gone, the replacement
    is the last entry, and all other entries are as before. *)
Theorem update_replaces_entry_with_units
    (k v u : string) (new_value new_units : option string)
    (self : MetaData) (bl : Re.pattern) :
  blacklist self = Some bl ->
  Re.re_match bl k = false ->
  access (item self) = true ->
  In (mkMeta k v (Some u)) (metadata (item self)) ->
  u <> "" ->
  is_None new_value && is_None new_units = false ->
  new_value <> Some "" ->
  let rv := match new_value with Some nv => nv | None => v end in
  let ru := match new_units with Some nu => nu | None => u end in
  existsb (same_avu k rv (Some ru)) (metadata (item self)) = false ->
  update k v (Some u) new_value new_units self
  = (inr tt,
     set_avus self
       (remove_first (same_avu k v (Some u)) (metadata (item self))
        ++ [mkMeta k rv (norm_units (Some ru))])).
Proof.
  intros Hbl Hk Hacc Hin Hu Hnew Hne rv ru Hfresh.
  assert (Hchecks : update_checks k v (Some u) new_value new_units self
                    = (inr tt, self)).
  { unfold update_checks, bind, read, ret, raise. rewrite Hnew.
    rewrite (option_eqb_neq _ _ Hne).
    destruct (contains_queries self bl k v u Hbl) as (_ & _ & -> & _).
    replace (existsb _ (visible_entries bl self)) with true; [reflexivity|].
    symmetry. apply existsb_exists. exists (mkMeta k v (Some u)). split.
    - apply filter_In. split; [exact Hin|]. unfold visible. simpl. now rewrite Hk.
    - simpl. now rewrite !String.eqb_refl. }
  assert (Hadd : update_add k v (Some u) new_value new_units self
                 = add k rv (Some ru) self).
  { unfold update_add, rv, ru.
    destruct new_value, new_units; try reflexivity. discriminate Hnew. }
  unfold update, bind. rewrite Hchecks, Hadd.
  rewrite (add_on_filtered_view k rv (Some ru) self bl Hbl).
  replace (existsb _ (visible_entries bl self)) with false.
  2:{ symmetry.
      destruct (existsb _ (visible_entries bl self)) eqn:Hex; [|reflexivity].
      apply existsb_exists in Hex as (m & Hm & Hmatch).
      apply filter_In in Hm as [Hm _].
      apply match_units_same_avu in Hmatch.
      assert (existsb (same_avu k rv (Some ru)) (metadata (item self)) = true)
        by (apply existsb_exists; eauto).
      congruence. }
  rewrite Hk, Hacc, Hfresh. simpl negb. cbv iota.
  assert (Htruthy : truthy (Some u) = true).
  { unfold truthy. apply negb_true_iff. now apply String.eqb_neq. }
  unfold update_delete. rewrite Htruthy.
  unfold delete, try_except, metadata_remove.
  cbn [item access metadata set_avus with_item with_metadata].
  rewrite Hacc. simpl negb. cbv iota.
  assert (Hold : existsb (same_avu k v (Some u)) (metadata (item self)) = true).
  { apply existsb_exists. exists (mkMeta k v (Some u)). split; [exact Hin|].
    apply (same_avu_refl (mkMeta k v (Some u))). }
  rewrite existsb_app, Hold. simpl orb. cbv iota.
  now rewrite remove_first_app by exact Hold.
Qed.

Lemma update_replaces_entry_with_units_witness :
  update "mass" "10" (Some "kg") (Some "11") None mass_in_two_units
  = (inr tt,
     set_avus mass_in_two_units
       [mkMeta "mass" "12" None; mkMeta "mass" "10" (Some "g");
        mkMeta "mass" "11" (Some "kg")]).
Proof.
  apply (update_replaces_entry_with_units "mass" "10" "kg" (Some "11") None
           mass_in_two_units default_blacklist);
    try reflexivity; try discriminate.
  left. reflexivity.
Defined.

(** X13. [update] rejects a call before it touches the item.  Without a
    new value and without new units it raises "No new value or new unit set",
    and with an empty new value "New value cannot be empty": both on every
    view and whether or not the entry exists.  Past these two checks, on a
    view with a pattern for a blacklist, it raises "does not exist" when no
    visible entry has the key and the value.  In all three cases the view is
    unchanged. *)
Theorem update_rejects_before_changing
    (k v : string) (units new_value new_units : option string)
    (self : MetaData) :
  (is_None new_value && is_None new_units = true ->
   update k v units new_value new_units self
   = (inl (ValueError NoNewValueOrUnit), self))
  /\ (is_None new_value && is_None new_units = false ->
      new_value = Some "" ->
      update k v units new_value new_units self
      = (inl (ValueError NewValueEmpty), self))
  /\ (forall bl,
        is_None new_value && is_None new_units = false ->
        new_value <> Some "" ->
        blacklist self = Some bl ->
        existsb (fun m => String.eqb (name m) k && String.eqb (value m) v)
          (visible_entries bl self) = false ->
        update k v units new_value new_units self
        = (inl (ValueError DoesNotExist), self)).
Proof.
  unfold update, update_checks, bind, read, raise, ret.
  split; [|split].
  - intros ->. reflexivity.
  - intros -> ->. reflexivity.
  - intros bl -> Hne Hbl Habs. rewrite (option_eqb_neq _ _ Hne).
    assert (H2 : contains self [Some k; Some v] = inr false).
    { destruct (contains_queries self bl k v "" Hbl) as (_ & -> & _).
      now rewrite Habs. }
    destruct units as [u|]; [|now rewrite H2].
    destruct (contains_queries self bl k v u Hbl) as (_ & _ & -> & _).
    replace (existsb _ (visible_entries bl self)) with false; [reflexivity|].
    symmetry.
    induction (visible_entries bl self) as [|m l IH]; simpl in *; [reflexivity|].
    apply orb_false_iff in Habs as [Hm Hl]. rewrite Hm. simpl. auto.
Qed.

Lemma update_rejects_before_changing_witness :
  update "mass" "10" (Some "kg") None None mass_in_two_units
  = (inl (ValueError NoNewValueOrUnit), mass_in_two_units)
  /\ update "mass" "10" (Some "kg") (Some "") (Some "g") mass_in_two_units
     = (inl (ValueError NewValueEmpty), mass_in_two_units)
  /\ update "mass" "99" None (Some "11") None mass_in_two_units
     = (inl (ValueError DoesNotExist), mass_in_two_units).
Proof.
  split; [|split].
  - apply (proj1 (update_rejects_before_changing "mass" "10" (Some "kg")
                    None None mass_in_two_units)).
    reflexivity.
  - apply (proj1 (proj2 (update_rejects_before_changing "mass" "10" (Some "kg")
                           (Some "") (Some "g") mass_in_two_units)));
      reflexivity.
  - apply (proj2 (proj2 (update_rejects_before_changing "mass" "99" None
                           (Some "11") None mass_in_two_units))
             default_blacklist);
      try reflexivity; discriminate.
Defined.

(** ** [to_dict] and [from_dict] *)

Lemma triplets_on_entries (l : list iRODSMeta) (keys : option (list string)) :
  triplets (map YMeta l) keys
  = inr (map triplet_of
           (filter (fun m => match keys with
                             | None => true
                             | Some ks => in_keys (name m) ks
                             end) l)).
Proof.
  induction l as [|m l IH]; simpl; [reflexivity|].
  rewrite IH. simpl. destruct keys as [ks|]; [|reflexivity].
  destruct (in_keys (name m) ks); reflexivity.
Qed.

Lemma to_dict_on_filtered_view (self : MetaData) (bl : Re.pattern)
    (keys : option (list string)) :
  blacklist self = Some bl ->
  to_dict self keys
  = inr (mkDict (item_name (item self)) (item_id (item self))
           (match item_kind_of (item self) with
            | DataObject => Some (checksum (item self))
            | _ => None
            end)
           (map triplet_of
              (filter (fun m => match keys with
                                | None => true
                                | Some ks => in_keys (name m) ks
                                end)
                 (visible_entries bl self)))).
Proof.
  intros Hbl. unfold to_dict, visible_entries.
  rewrite (iter_blacklist self bl Hbl). fold (visible bl).
  now rewrite triplets_on_entries.
Qed.

(** X14. [to_dict] on a view with a pattern for a blacklist returns a
    dictionary, and a triplet is in its ["metadata"] list exactly when the
    item carries that entry, the pattern does not match its name and, when
    [keys] is given, its name is one of the keys. *)
Theorem to_dict_exports_visible_entries
    (self : MetaData) (bl : Re.pattern) (keys : option (list string)) :
  blacklist self = Some bl ->
  exists d,
    to_dict self keys = inr d
    /\ forall n v u,
        In (n, v, u) (d_metadata d) <->
        In (mkMeta n v u) (metadata (item self))
        /\ Re.re_match bl n = false
        /\ match keys with
           | None => True
           | Some ks => In n ks
           end.
Proof.
  intros Hbl. eexists. split; [apply (to_dict_on_filtered_view self bl keys Hbl)|].
  intros n v u. simpl. rewrite in_map_iff. split.
  - intros ([n' v' u'] & Heq & Hin). inversion Heq; subst.
    apply filter_In in Hin as [Hin Hkeys].
    apply filter_In in Hin as [Hin Hvis].
    split; [exact Hin|]. split.
    + unfold visible in Hvis. simpl in Hvis. now apply negb_true_iff.
    + destruct keys as [ks|]; [|exact I].
      simpl in Hkeys. apply existsb_exists in Hkeys as (x & Hx & Hnx).
      apply String.eqb_eq in Hnx. now subst.
  - intros (Hin & Hvis & Hkeys). exists (mkMeta n v u). split; [reflexivity|].
    apply filter_In. split.
    + apply filter_In. split; [exact Hin|]. unfold visible. simpl. now rewrite Hvis.
    + destruct keys as [ks|]; [|reflexivity].
      simpl. apply existsb_exists. exists n. split; [exact Hkeys|].
      apply String.eqb_refl.
Qed.

Lemma to_dict_exports_visible_entries_witness :
  exists d,
    to_dict with_system_entries (Some ["mass"; "org_id"]) = inr d
    /\ forall n v u,
        In (n, v, u) (d_metadata d) <->
        In (mkMeta n v u) (metadata (item with_system_entries))
        /\ Re.re_match default_blacklist n = false
        /\ In n ["mass"; "org_id"].
Proof.
  apply (to_dict_exports_visible_entries with_system_entries default_blacklist
           (Some ["mass"; "org_id"])).
  reflexivity.
Defined.

Lemma norm_units_id (u : option string) : u <> Some "" -> norm_units u = u.
Proof. destruct u as [[|c s]|]; simpl; congruence. Qed.

Lemma meta_eta (m : iRODSMeta) : mkMeta (name m) (value m) (units m) = m.
Proof. now destruct m. Qed.

Lemma name_value_fresh (m : iRODSMeta) (pre post : list iRODSMeta) (x : iRODSMeta) :
  NoDup (map name_value (pre ++ m :: post)) ->
  In x pre ->
  String.eqb (name x) (name m) && String.eqb (value x) (value m) = false.
Proof.
  intros Hnd Hx.
  destruct (String.eqb (name x) (name m) && String.eqb (value x) (value m))
    eqn:Heq; [|reflexivity].
  apply andb_true_iff in Heq as [Hn Hv]. apply String.eqb_eq in Hn, Hv.
  rewrite map_app in Hnd. simpl in Hnd. apply NoDup_remove_2 in Hnd.
  exfalso. apply Hnd, in_or_app. left.
  apply in_map_iff. exists x. split; [|exact Hx].
  unfold name_value. congruence.
Qed.

(** Restoring, onto the hidden entries [hid] and the entries [done] already
    restored, entries [todo] that are all visible, pairwise different in name
    and value and free of the empty unit: every [add] succeeds. *)
Lemma restore_loop (bl : Re.pattern) (hid : list iRODSMeta) :
  (forall m, In m hid -> Re.re_match bl (name m) = true) ->
  forall (todo done : list iRODSMeta) (self : MetaData),
    blacklist self = Some bl ->
    access (item self) = true ->
    metadata (item self) = (hid ++ done)%list ->
    (forall m, In m (done ++ todo) -> Re.re_match bl (name m) = false) ->
    NoDup (map name_value (done ++ todo)) ->
    (forall m, In m todo -> units m <> Some "") ->
    from_dict_loop (map triplet_of todo) self
    = (inr tt, set_avus self (hid ++ done ++ todo)).
Proof.
  intros Hhid. induction todo as [|m todo IH];
    intros done self Hbl Hacc Hmeta Hvis Hnd Hunits.
  - simpl. unfold ret. now rewrite app_nil_r, <- Hmeta, set_avus_same.
  - simpl map. unfold triplet_of at 1. rewrite from_dict_loop_step.
    rewrite (add_on_filtered_view _ _ _ self bl Hbl).
    assert (Hm : Re.re_match bl (name m) = false)
      by (apply Hvis, in_or_app; right; now left).
    assert (Hcat : existsb (same_avu (name m) (value m) (units m))
                     (metadata (item self)) = false).
    { destruct (existsb _ (metadata (item self))) eqn:Hex; [|reflexivity].
      apply existsb_exists in Hex as (x & Hx & Hsame).
      rewrite Hmeta in Hx. apply in_app_or in Hx as [Hx|Hx].
      - apply same_avu_name in Hsame. apply Hhid in Hx. congruence.
      - pose proof (name_value_fresh m done todo x Hnd Hx) as Hfresh.
        unfold same_avu in Hsame. apply andb_true_iff in Hsame as [Hsame _].
        congruence. }
    replace (existsb _ (visible_entries bl self)) with false.
    2:{ symmetry.
        destruct (existsb _ (visible_entries bl self)) eqn:Hex; [|reflexivity].
        apply existsb_exists in Hex as (x & Hx & Hmatch).
        apply filter_In in Hx as [Hx Hxvis].
        rewrite Hmeta in Hx. apply in_app_or in Hx as [Hx|Hx].
        - apply Hhid in Hx. unfold visible in Hxvis. rewrite Hx in Hxvis.
          discriminate.
        - pose proof (name_value_fresh m done todo x Hnd Hx) as Hfresh.
          apply andb_true_iff in Hmatch as [Hmatch _]. congruence. }
    rewrite Hm, Hacc, Hcat. simpl negb. cbv iota.
    rewrite norm_units_id by (apply Hunits; now left).
    rewrite meta_eta, Hmeta.
    rewrite (IH (done ++ [m])%list).
    + unfold set_avus. simpl. now rewrite <- !app_assoc.
    + exact Hbl.
    + exact Hacc.
    + simpl. now rewrite <- app_assoc.
    + now rewrite <- app_assoc.
    + now rewrite <- app_assoc.
    + intros x Hx. apply Hunits. now right.
Qed.

Lemma filter_visible_split (bl : Re.pattern) (l : list iRODSMeta) :
  filter (visible bl)
    (filter (fun m => negb (visible bl m)) l ++ filter (visible bl) l)
  = filter (visible bl) l.
Proof.
  rewrite filter_app.
  replace (filter (visible bl) (filter (fun m => negb (visible bl m)) l))
    with (@nil iRODSMeta).
  - simpl. induction l as [|m l IH]; simpl; [reflexivity|].
    destruct (visible bl m) eqn:Hm; simpl; rewrite ?Hm, IH; reflexivity.
  - induction l as [|m l IH]; simpl; [reflexivity|].
    destruct (visible bl m) eqn:Hm; simpl; rewrite ?Hm; exact IH.
Qed.

Lemma filter_all {A} (l : list A) : filter (fun _ => true) l = l.
Proof. induction l; simpl; congruence. Qed.

(** X15. Round trip of [to_dict], [clear] and [from_dict], on a view with a
    pattern for a blacklist and an item the session may modify.  When no two
    visible entries share both name and value, and no visible entry carries
    the empty unit string, clearing the view and restoring the exported
    dictionary succeeds and the view exports the same dictionary again; the
    item then holds its blacklisted entries followed by the restored ones.
    (Two entries that differ in their units only are not always both
    restored: [add] without units refuses a triplet whose name and value are
    already visible.) *)
Theorem clear_then_from_dict_restores
    (self : MetaData) (bl : Re.pattern) (d : meta_dict) :
  blacklist self = Some bl ->
  access (item self) = true ->
  NoDup (map name_value (visible_entries bl self)) ->
  (forall m, In m (visible_entries bl self) -> units m <> Some "") ->
  to_dict self None = inr d ->
  exists self',
    bind clear (fun _ => from_dict d) self = (inr tt, self')
    /\ to_dict self' None = inr d
    /\ metadata (item self')
       = (filter (fun m => Re.re_match bl (name m)) (metadata (item self))
          ++ visible_entries bl self)%list.
Proof.
  intros Hbl Hacc Hnd Hunits Hd.
  rewrite (to_dict_on_filtered_view self bl None Hbl) in Hd.
  inversion Hd as [Hd']. clear Hd.
  set (hid := filter (fun m => negb (visible bl m)) (metadata (item self))).
  assert (Hhid : forall m, In m hid -> Re.re_match bl (name m) = true).
  { intros m Hm. apply filter_In in Hm as [_ Hm]. unfold visible in Hm.
    now rewrite negb_involutive in Hm. }
  pose proof (filter_all (visible_entries bl self)) as Hall.
  exists (set_avus self (hid ++ visible_entries bl self)).
  split; [|split].
  - unfold bind. rewrite (clear_on_filtered_view self bl Hbl Hacc). fold hid.
    unfold from_dict. simpl d_metadata. rewrite Hall.
    rewrite (restore_loop bl hid Hhid (visible_entries bl self) []
               (set_avus self hid)); try assumption; try reflexivity.
    + simpl. now rewrite app_nil_r.
    + intros m Hm. apply filter_In in Hm as [_ Hm]. unfold visible in Hm.
      now apply negb_true_iff.
  - rewrite (to_dict_on_filtered_view _ bl None) by exact Hbl.
    assert (Hv : visible_entries bl
                   (set_avus self (hid ++ visible_entries bl self))
                 = visible_entries bl self).
    { unfold visible_entries. simpl. unfold hid. apply filter_visible_split. }
    rewrite Hv. subst d. reflexivity.
  - simpl. unfold hid. f_equal. apply filter_ext. intros m.
    unfold visible. apply negb_involutive.
Qed.

Lemma clear_then_from_dict_restores_witness :
  exists self',
    bind clear
      (fun _ => from_dict
                  (mkDict "x.txt" 10 (Some "sha2:0")
                     [("Author", "Ben", None); ("mass", "10", Some "kg")]))
      with_system_entries
    = (inr tt, self')
    /\ to_dict self' None
       = inr (mkDict "x.txt" 10 (Some "sha2:0")
                [("Author", "Ben", None); ("mass", "10", Some "kg")])
    /\ metadata (item self')
       = [mkMeta "org_id" "7" None; mkMeta "org_lock" "1" None;
          mkMeta "Author" "Ben" None; mkMeta "mass" "10" (Some "kg")].
Proof.
  apply (clear_then_from_dict_restores with_system_entries default_blacklist).
  - reflexivity.
  - reflexivity.
  - repeat constructor; simpl; intuition discriminate.
  - intros m [<-|[<-|[]]]; discriminate.
  - reflexivity.
Defined.

Lemma rejected_run (ts : list triplet) (self : MetaData) :
  (forall t, In t ts -> rejected t self) ->
  from_dict_loop ts self = (inr tt, self).
Proof.
  induction ts as [|[[k v] u] ts IH]; intros Hall; [reflexivity|].
  rewrite from_dict_loop_step.
  destruct (Hall (k, v, u) (or_introl eq_refl)) as [why Hk]. simpl in Hk.
  rewrite Hk. simpl. apply IH. intros t Ht. apply Hall. now right.
Qed.

(** A triplet that [add] rejects stays rejected after another triplet was
    added: a duplicate stays a duplicate, a blacklisted key stays
    blacklisted. *)
Lemma rejected_after_add (t : triplet) (k v : string) (u : option string)
    (self self' : MetaData) :
  rejected t self ->
  add k v u self = (inr tt, self') ->
  rejected t self'.
Proof.
  destruct t as [[k0 v0] u0]. intros [why Hrej] Hadd. unfold rejected.
  simpl in *.
  destruct (blacklist self) as [bl|] eqn:Hbl.
  2:{ unfold add, try_except, bind, read, contains, iter in Hadd.
      rewrite Hbl in Hadd. simpl in Hadd. discriminate. }
  rewrite (add_on_filtered_view k v u self bl Hbl) in Hadd.
  destruct (existsb _ (visible_entries bl self)); [discriminate|].
  destruct (Re.re_match bl k) eqn:Hk; [discriminate|].
  destruct (negb (access (item self))); [discriminate|].
  destruct (existsb _ (metadata (item self))); [discriminate|].
  inversion Hadd. clear Hadd.
  set (new := mkMeta k v (norm_units u)).
  assert (Hvis : visible_entries bl (set_avus self (metadata (item self) ++ [new]))
                 = (visible_entries bl self ++ [new])%list).
  { unfold visible_entries. simpl. rewrite filter_app. simpl.
    unfold visible at 2. simpl. now rewrite Hk. }
  rewrite (add_on_filtered_view k0 v0 u0 self bl Hbl) in Hrej.
  rewrite (add_on_filtered_view k0 v0 u0 _ bl) by exact Hbl.
  rewrite Hvis, existsb_app.
  destruct (existsb _ (visible_entries bl self)); simpl orb; cbv iota.
  - eauto.
  - destruct (Re.re_match bl k0) eqn:Hk0.
    + match goal with
      | |- context [if ?b then _ else _] => destruct b
      end; eauto.
    + destruct (negb (access (item self))); [discriminate|].
      destruct (existsb _ (metadata (item self))); discriminate.
Qed.

Lemma rejected_after_run (t : triplet) (ts : list triplet) :
  forall self self',
    rejected t self ->
    from_dict_loop ts self = (inr tt, self') ->
    rejected t self'.
Proof.
  induction ts as [|[[k v] u] ts IH]; intros self self' Hrej Hrun.
  - inversion Hrun. now subst.
  - rewrite from_dict_loop_step in Hrun.
    destruct (add k v u self) as [[e|[]] self1] eqn:Hadd.
    + pose proof (add_failure_keeps_view _ _ _ _ _ _ Hadd) as ->.
      destruct (is_ValueError e); [eauto|discriminate].
    + eapply IH; [|exact Hrun]. eapply rejected_after_add; eauto.
Qed.

Lemma restored_are_rejected (ts : list triplet) :
  (forall k v, ~ In (k, v, Some "") ts) ->
  forall self self',
    from_dict_loop ts self = (inr tt, self') ->
    forall t, In t ts -> rejected t self'.
Proof.
  induction ts as [|[[k v] u] ts IH]; intros Hunits self self' Hrun t Ht;
    [contradiction|].
  assert (Hunits' : forall k v, ~ In (k, v, Some "") ts)
    by (intros k' v' Hin; apply (Hunits k' v'); now right).
  rewrite from_dict_loop_step in Hrun.
  destruct (add k v u self) as [[e|[]] self1] eqn:Hadd.
  - pose proof (add_failure_keeps_view _ _ _ _ _ _ Hadd) as ->.
    destruct e; try discriminate. simpl in Hrun.
    destruct Ht as [<-|Ht]; [|eauto].
    apply (rejected_after_run _ ts self self'); [|exact Hrun].
    exists why. exact Hadd.
  - destruct Ht as [<-|Ht]; [|eauto].
    apply (rejected_after_run _ ts self1 self'); [|exact Hrun].
    destruct (add_again k v u self self1 Hadd) as (e & Hagain & [->|[-> _]]).
    + exists MetadataAlreadyPresent. exact Hagain.
    + exfalso. apply (Hunits k v). now left.
Qed.

(** X16. Restoring is idempotent: when [from_dict] has succeeded for a
    dictionary none of whose triplets carries the empty unit string, running
    it again with the same dictionary succeeds and changes nothing, every
    triplet now being rejected as a duplicate or as blacklisted. *)
Theorem from_dict_again_changes_nothing
    (d : meta_dict) (self self' : MetaData) :
  (forall k v, ~ In (k, v, Some "") (d_metadata d)) ->
  from_dict d self = (inr tt, self') ->
  from_dict d self' = (inr tt, self').
Proof.
  unfold from_dict. intros Hunits Hrun.
  apply rejected_run. intros t Ht.
  exact (restored_are_rejected (d_metadata d) Hunits self self' Hrun t Ht).
Qed.

Lemma from_dict_again_changes_nothing_witness :
  from_dict
    (mkDict "x.txt" 10 (Some "sha2:0")
       [("mass", "10", Some "kg"); ("org_id", "7", None); ("B", "2", None)])
    (set_avus mass_in_kg [mkMeta "mass" "10" (Some "kg"); mkMeta "B" "2" None])
  = (inr tt,
     set_avus mass_in_kg [mkMeta "mass" "10" (Some "kg"); mkMeta "B" "2" None]).
Proof.
  apply (from_dict_again_changes_nothing _ mass_in_kg).
  - intros k v [H|[H|[H|[]]]]; discriminate H.
  - reflexivity.
Defined.

(* ================================================================== *)
(** * Further properties of [export_metadata.py] *)
(* ================================================================== *)

Lemma rmap_record_of_exact (coll_path : string) (l : list Item) :
  exists rs,
    rmap (record_of coll_path) l = inr rs
    /\ forall r, In r rs <-> exists x, In x l /\ record_of coll_path x = inr r.
Proof.
  induction l as [|x l (rs & Hrs & Hin)]; simpl.
  - exists []. split; [reflexivity|]. intros r. split; [intros []|].
    intros (x & [] & _).
  - destruct (record_of_total coll_path x) as (d & _ & Hx).
    rewrite Hx, Hrs. simpl. eexists. split; [reflexivity|].
    intros r. simpl. rewrite Hin. split.
    + intros [<-|(y & Hy & Hr)]; eauto.
    + intros (y & [<-|Hy] & Hr).
      * left. congruence.
      * right. eauto.
Qed.

Lemma extend_exact (coll_path : string) (subs : list Item) :
  Forall walk_exact subs ->
  forall objects collections,
  exists objects' collections',
    extend (fun s => get_subcolls s (Some coll_path)) subs objects collections
    = inr (objects', collections')
    /\ (forall r, In r objects' <->
                  In r objects
                  \/ exists s o, In s subs /\ descendant_object o s
                                 /\ record_of coll_path o = inr r)
    /\ (forall r, In r collections' <->
                  In r collections
                  \/ exists s c, In s subs /\ descendant_collection c s
                                 /\ record_of coll_path c = inr r).
Proof.
  induction 1 as [|s subs Hs _ IH]; intros objects collections; simpl.
  - exists objects, collections. split; [reflexivity|].
    split; intros r; (split; [auto | intros [H|(? & ? & [] & _)]; exact H]).
  - destruct (Hs (Some coll_path)) as (so & sc & -> & Hso & Hsc). simpl.
    destruct (IH (objects ++ so)%list (collections ++ sc)%list)
      as (objects' & collections' & -> & Hobjs & Hcols).
    exists objects', collections'. split; [reflexivity|].
    split; intros r.
    + rewrite Hobjs, in_app_iff, Hso. split.
      * intros [[H|(o & Ho & Hr)]|(s' & o & Hs' & Ho & Hr)]; eauto 8.
      * intros [H|(s' & o & [<-|Hs'] & Ho & Hr)]; eauto 8.
    + rewrite Hcols, in_app_iff, Hsc. split.
      * intros [[H|(c & Hc & Hr)]|(s' & c & Hs' & Hc & Hr)]; eauto 8.
      * intros [H|(s' & c & [<-|Hs'] & Hc & Hr)]; eauto 8.
Qed.

Lemma get_subcolls_exact (coll : Item) : walk_exact coll.
Proof.
  induction coll as [coll IH] using Item_subcollections_ind.
  intros root coll_path. rewrite get_subcolls_eq. fold coll_path. cbv zeta.
  destruct (rmap_record_of_exact coll_path (data_objects coll))
    as (objs & -> & Hobjs).
  destruct (rmap_record_of_exact coll_path (subcollections coll))
    as (cols & -> & Hcols).
  simpl rbind.
  destruct (Nat.ltb 0 (length (subcollections coll))) eqn:Hlen.
  - destruct (extend_exact coll_path _ IH objs cols)
      as (objects' & collections' & -> & Hobjs' & Hcols').
    exists objects', collections'. split; [reflexivity|].
    split; intros r.
    + rewrite Hobjs', Hobjs. split.
      * intros [(o & Ho & Hr)|(s & o & Hs & Ho & Hr)].
        -- exists o. split; [now apply child_object|exact Hr].
        -- exists o. split; [now apply deeper_object with s|exact Hr].
      * intros (o & Ho & Hr). inversion Ho; subst; eauto 8.
    + rewrite Hcols', Hcols. split.
      * intros [(c & Hc & Hr)|(s & c & Hs & Hc & Hr)].
        -- exists c. split; [now apply child_collection|exact Hr].
        -- exists c. split; [now apply deeper_collection with s|exact Hr].
      * intros (c & Hc & Hr). inversion Hc; subst; eauto 8.
  - apply Nat.ltb_ge in Hlen.
    assert (Hnone : subcollections coll = []).
    { destruct (subcollections coll); [reflexivity | simpl in Hlen; lia]. }
    exists objs, []. split; [reflexivity|].
    split; intros r.
    + rewrite Hobjs. split.
      * intros (o & Ho & Hr). exists o. split; [now apply child_object|exact Hr].
      * intros (o & Ho & Hr). inversion Ho; subst; eauto.
        rewrite Hnone in *. contradiction.
    + split; [intros []|].
      intros (c & Hc & _). inversion Hc; subst; rewrite Hnone in *; contradiction.
Qed.

Lemma record_of_inv (coll_path : string) (x : Item) (r : export_record) :
  record_of coll_path x = inr r <->
  exists d,
    to_dict (MetaData_init x) None = inr d
    /\ r = mkRecord (item_name x) (item_id x) (rel_path coll_path x) d.
Proof.
  destruct (record_of_total coll_path x) as (d & Hd & Hrec). rewrite Hrec.
  split.
  - intros H. inversion H. eauto.
  - intros (d' & Hd' & ->). congruence.
Qed.

Lemma export_recursive_collection
    (meta : MetaData) (bl : Re.pattern) (keys : option (list string)) :
  blacklist meta = Some bl ->
  item_kind_of (item meta) = Collection ->
  exists md objects collections,
    to_dict meta keys = inr md
    /\ get_subcolls (item meta) (Some (item_path (item meta)))
       = inr (objects, collections)
    /\ export_metadata_to_dict meta true keys
       = inr (mkExport md (Some collections) (Some objects)).
Proof.
  intros Hbl Hkind.
  unfold export_metadata_to_dict, is_dataobject, is_collection. rewrite Hkind.
  destruct (to_dict_total meta bl keys Hbl) as [md ->]. simpl rbind.
  destruct (get_subcolls_exact (item meta) (Some (item_path (item meta))))
    as (objects & collections & -> & _).
  simpl. eauto 6.
Qed.

(** X17. The ["subcollections"] list of a recursive export of a collection
    is flat and complete: a record is in the list exactly when it is the
    record of a subcollection at some depth below the exported collection,
    with [rel_path] taken against the exported collection's path.  Nested
    subcollections are listed however deep they lie. *)
Theorem recursive_export_lists_exactly_the_subcollections
    (meta : MetaData) (bl : Re.pattern) (keys : option (list string)) :
  blacklist meta = Some bl ->
  item_kind_of (item meta) = Collection ->
  exists x collections,
    export_metadata_to_dict meta true keys = inr x
    /\ x_subcollections x = Some collections
    /\ forall r,
        In r collections <->
        exists s d,
          descendant_collection s (item meta)
          /\ to_dict (MetaData_init s) None = inr d
          /\ r = mkRecord (item_name s) (item_id s)
                   (rel_path (item_path (item meta)) s) d.
Proof.
  intros Hbl Hkind.
  destruct (export_recursive_collection meta bl keys Hbl Hkind)
    as (md & objects & collections & _ & Hwalk & ->).
  exists (mkExport md (Some collections) (Some objects)), collections.
  split; [reflexivity|]. split; [reflexivity|].
  destruct (get_subcolls_exact (item meta) (Some (item_path (item meta))))
    as (objects' & collections' & Hwalk' & _ & Hcols).
  rewrite Hwalk in Hwalk'. inversion Hwalk'; subst.
  intros r. rewrite Hcols. split.
  - intros (s & Hs & Hr). apply record_of_inv in Hr as (d & Hd & ->). eauto.
  - intros (s & d & Hs & Hd & ->). exists s. split; [exact Hs|].
    apply record_of_inv. eauto.
Qed.

(** X18. The ["dataobjects"] list of a recursive export holds nothing but
    descendants: every record in it is the record of a data object at some
    depth below the exported collection, with the object's own name and id,
    its [rel_path] against the exported collection's path, and the
    dictionary that [to_dict] gives for the object under the default
    blacklist (whatever blacklist and [keys] the export was called with). *)
Theorem recursive_export_lists_only_descendant_objects
    (meta : MetaData) (bl : Re.pattern) (keys : option (list string))
    (x : export_dict) (objects : list export_record) (r : export_record) :
  blacklist meta = Some bl ->
  item_kind_of (item meta) = Collection ->
  export_metadata_to_dict meta true keys = inr x ->
  x_dataobjects x = Some objects ->
  In r objects ->
  exists o d,
    descendant_object o (item meta)
    /\ to_dict (MetaData_init o) None = inr d
    /\ r = mkRecord (item_name o) (item_id o)
             (rel_path (item_path (item meta)) o) d.
Proof.
  intros Hbl Hkind Hx Hobjs Hr.
  destruct (export_recursive_collection meta bl keys Hbl Hkind)
    as (md & objects' & collections & _ & Hwalk & Hexp).
  rewrite Hexp in Hx. inversion Hx; subst. simpl in Hobjs.
  inversion Hobjs; subst.
  destruct (get_subcolls_exact (item meta) (Some (item_path (item meta))))
    as (objects'' & collections' & Hwalk' & Hall & _).
  rewrite Hwalk in Hwalk'. inversion Hwalk'; subst.
  apply Hall in Hr as (o & Ho & Hrec).
  apply record_of_inv in Hrec as (d & Hd & ->). eauto.
Qed.

(* ================================================================== *)
(** * Further properties: the string representation *)
(* ================================================================== *)

Section SortedFacts.

Context {A : Type} (le : A -> A -> bool).
Hypothesis le_total : forall x y, le x y = true \/ le y x = true.
Hypothesis le_trans : forall x y z, le x y = true -> le y z = true -> le x z = true.

Lemma insert_sorted_perm (x : A) (l : list A) :
  Permutation (insert_sorted le x l) (x :: l).
Proof.
  induction l as [|y l IH]; simpl; [reflexivity|].
  destruct (le x y); [reflexivity|].
  rewrite IH. apply perm_swap.
Qed.

Lemma sorted_perm (l : list A) : Permutation (sorted le l) l.
Proof.
  induction l as [|x l IH]; simpl; [reflexivity|].
  rewrite insert_sorted_perm. now constructor.
Qed.

Variable R : A -> A -> Prop.

Lemma insert_sorted_then_by (x : A) (l : list A) :
  StronglySorted (then_by le R) l ->
  Forall (R x) l ->
  StronglySorted (then_by le R) (insert_sorted le x l).
Proof.
  induction l as [|y l IH]; intros Hsorted Hx; simpl.
  - repeat constructor.
  - inversion Hsorted as [|? ? Hl Hy]; subst.
    inversion Hx as [|? ? Hxy Hxl]; subst.
    destruct (le x y) eqn:Hle.
    + constructor; [exact Hsorted|].
      constructor; [split; auto|].
      rewrite Forall_forall in *. intros z Hz. split; [|auto].
      apply (le_trans x y z Hle). now apply Hy.
    + constructor; [now apply IH|].
      rewrite Forall_forall in *. intros z Hz.
      apply (Permutation_in _ (insert_sorted_perm x l)) in Hz.
      destruct Hz as [<-|Hz]; [|now apply Hy].
      split; [|congruence].
      destruct (le_total x y); congruence.
Qed.

(** A stable sort refines the order the list already has. *)
Lemma sorted_then_by (l : list A) :
  StronglySorted R l -> StronglySorted (then_by le R) (sorted le l).
Proof.
  induction l as [|x l IH]; intros Hsorted; simpl; [constructor|].
  inversion Hsorted as [|? ? Hl Hx]; subst.
  apply insert_sorted_then_by; [now apply IH|].
  rewrite Forall_forall in *. intros z Hz. apply Hx.
  now apply (Permutation_in _ (sorted_perm l)).
Qed.

End SortedFacts.

Lemma ascii_compare_refl (c : ascii) : Ascii.compare c c = Eq.
Proof. unfold Ascii.compare. apply N.compare_refl. Qed.

Lemma string_compare_refl (s : string) : String.compare s s = Eq.
Proof.
  induction s as [|c s IH]; simpl; [reflexivity|].
  now rewrite ascii_compare_refl.
Qed.

Lemma string_leb_refl (s : string) : String.leb s s = true.
Proof. unfold String.leb. now rewrite string_compare_refl. Qed.

Lemma string_compare_lt_trans (a : string) :
  forall b c,
    String.compare a b = Lt -> String.compare b c = Lt -> String.compare a c = Lt.
Proof.
  induction a as [|x a IH]; intros [|y b] [|z c]; simpl; try congruence.
  unfold Ascii.compare.
  destruct (N.compare_spec (N_of_ascii x) (N_of_ascii y)) as [Hxy|Hxy|Hxy];
    destruct (N.compare_spec (N_of_ascii y) (N_of_ascii z)) as [Hyz|Hyz|Hyz];
    try congruence; intros H1 H2.
  - rewrite Hxy, Hyz, N.compare_refl. eauto.
  - rewrite Hxy. apply N.compare_lt_iff in Hyz. now rewrite Hyz.
  - rewrite <- Hyz. apply N.compare_lt_iff in Hxy. now rewrite Hxy.
  - assert (H : (N_of_ascii x < N_of_ascii z)%N) by lia.
    apply N.compare_lt_iff in H. now rewrite H.
Qed.

Lemma string_leb_trans (a b c : string) :
  String.leb a b = true -> String.leb b c = true -> String.leb a c = true.
Proof.
  unfold String.leb.
  destruct (String.compare a b) eqn:Hab; try discriminate;
    destruct (String.compare b c) eqn:Hbc; try discriminate; intros _ _.
  - apply String.compare_eq_iff in Hab, Hbc. subst.
    now rewrite string_compare_refl.
  - apply String.compare_eq_iff in Hab. subst. now rewrite Hbc.
  - apply String.compare_eq_iff in Hbc. subst. now rewrite Hab.
  - now rewrite (string_compare_lt_trans a b c Hab Hbc).
Qed.

Lemma by_name_leb (m1 m2 : iRODSMeta) :
  by_name m1 m2 = String.leb (name m1) (name m2).
Proof. reflexivity. Qed.

Lemma by_value_leb (m1 m2 : iRODSMeta) :
  by_value m1 m2 = String.leb (value m1) (value m2).
Proof. reflexivity. Qed.

Lemma by_units_le (m1 m2 : iRODSMeta) :
  by_units m1 m2 = units_le (units m1) (units m2).
Proof.
  unfold by_units, key_of, key_le, units_le.
  now destruct (units m1), (units m2).
Qed.

Lemma units_le_total (u1 u2 : option string) :
  units_le u1 u2 = true \/ units_le u2 u1 = true.
Proof. destruct u1, u2; simpl; auto using String.leb_total. Qed.

Lemma units_le_trans (u1 u2 u3 : option string) :
  units_le u1 u2 = true -> units_le u2 u3 = true -> units_le u1 u3 = true.
Proof.
  destruct u1, u2, u3; simpl; try congruence. apply string_leb_trans.
Qed.

Lemma entries_of_entries (l : list iRODSMeta) : entries_of (map YMeta l) = inr l.
Proof. induction l as [|m l IH]; simpl; [reflexivity|]. now rewrite IH. Qed.

Lemma StronglySorted_weaken {A} (R S : A -> A -> Prop) (l : list A) :
  (forall x y, R x y -> S x y) -> StronglySorted R l -> StronglySorted S l.
Proof.
  intros HRS. induction 1 as [|x l Hl IH Hx]; constructor; auto.
  rewrite Forall_forall in *. auto.
Qed.

Lemma StronglySorted_any {A} (l : list A) :
  StronglySorted (fun _ _ : A => True) l.
Proof.
  induction l; constructor; auto. rewrite Forall_forall. auto.
Qed.

(** X19. The string representation of a view with a pattern for a
    blacklist has one line per visible entry, and the lines are in
    ascending order of the name, then of the value, then of the units, an
    entry without units coming after the entries of the same name and value
    that have units. *)
Theorem str_lists_entries_in_order (self : MetaData) (bl : Re.pattern) :
  blacklist self = Some bl ->
  exists lines : list iRODSMeta,
    str self = inr (String.concat newline (map format_entry lines))
    /\ Permutation lines (visible_entries bl self)
    /\ StronglySorted entry_le lines.
Proof.
  intros Hbl. unfold str. rewrite (iter_blacklist self bl Hbl).
  fold (visible bl). fold (visible_entries bl self).
  rewrite entries_of_entries. cbv zeta.
  eexists. split; [reflexivity|]. split.
  - now rewrite !sorted_perm.
  - apply (StronglySorted_weaken
             (then_by by_name
                (then_by by_value (then_by by_units (fun _ _ => True))))).
    + intros x y [Hn Hrest]. rewrite by_name_leb in *. split; [exact Hn|].
      intros Hname. rewrite <- Hname, string_leb_refl in Hrest.
      destruct (Hrest eq_refl) as [Hv Hrest']. rewrite by_value_leb in *.
      split; [exact Hv|].
      intros Hvalue. rewrite <- Hvalue, string_leb_refl in Hrest'.
      destruct (Hrest' eq_refl) as [Hu _]. now rewrite by_units_le in Hu.
    + apply sorted_then_by.
      * intros x y. rewrite !by_name_leb. apply String.leb_total.
      * intros x y z. rewrite !by_name_leb. apply string_leb_trans.
      * apply sorted_then_by.
        -- intros x y. rewrite !by_value_leb. apply String.leb_total.
        -- intros x y z. rewrite !by_value_leb. apply string_leb_trans.
        -- apply sorted_then_by.
           ++ intros x y. rewrite !by_units_le. apply units_le_total.
           ++ intros x y z. rewrite !by_units_le. apply units_le_trans.
           ++ apply StronglySorted_any.
Qed.

Lemma str_lists_entries_in_order_witness :
  exists lines : list iRODSMeta,
    str with_system_entries
    = inr (String.concat newline (map format_entry lines))
    /\ Permutation lines (visible_entries default_blacklist with_system_entries)
    /\ StronglySorted entry_le lines.
Proof.
  apply (str_lists_entries_in_order with_system_entries default_blacklist).
  reflexivity.
Defined.

Lemma recursive_export_lists_exactly_the_subcollections_witness :
  exists x collections,
    export_metadata_to_dict (MetaData_init example_root) true None = inr x
    /\ x_subcollections x = Some collections
    /\ forall r,
        In r collections <->
        exists s d,
          descendant_collection s example_root
          /\ to_dict (MetaData_init s) None = inr d
          /\ r = mkRecord (item_name s) (item_id s)
                   (rel_path "/zone/home/root" s) d.
Proof.
  apply (recursive_export_lists_exactly_the_subcollections
           (MetaData_init example_root) default_blacklist None);
    reflexivity.
Defined.

Lemma recursive_export_lists_only_descendant_objects_witness :
  exists o d,
    descendant_object o example_root
    /\ to_dict (MetaData_init o) None = inr d
    /\ mkRecord "x.txt" 3 "sub/x.txt"
         (mkDict "x.txt" 3 (Some "sha2:0") [("Author", "Ben", None)])
       = mkRecord (item_name o) (item_id o) (rel_path "/zone/home/root" o) d.
Proof.
  eapply (recursive_export_lists_only_descendant_objects
            (MetaData_init example_root) default_blacklist None).
  - reflexivity.
  - reflexivity.
  - reflexivity.
  - reflexivity.
  - left. reflexivity.
Defined.

(* ================================================================== *)
(** * Further properties: how the operations compose *)
(* ================================================================== *)

(** X20. [set] under a key that the blacklist pattern matches, on an item
    the session may modify: [delete] does not consult the blacklist, so every
    entry under the key is removed first, and then [add] refuses the key.
    The call fails with the [ValueError] about the key and the item has lost
    its entries under that key. *)
Theorem set_blacklisted_key_removes_then_fails
    (key value : string) (units : option string)
    (self : MetaData) (bl : Re.pattern) :
  blacklist self = Some bl ->
  Re.re_match bl key = true ->
  access (item self) = true ->
  set key value units self
  = (inl (ValueError KeyMustNotStartWith),
     set_avus self (filter (not_named key) (metadata (item self)))).
Proof.
  intros Hbl Hkey Hacc. unfold set, bind.
  rewrite delete_key_removes_all by exact Hacc.
  now rewrite (add_blacklisted key value units _ bl) by assumption.
Qed.

Lemma set_blacklisted_key_removes_then_fails_witness :
  set "org_id" "8" None with_system_entries
  = (inl (ValueError KeyMustNotStartWith),
     set_avus with_system_entries
       [mkMeta "Author" "Ben" None; mkMeta "mass" "10" (Some "kg");
        mkMeta "org_lock" "1" None]).
Proof.
  apply (set_blacklisted_key_removes_then_fails "org_id" "8" None
           with_system_entries default_blacklist); reflexivity.
Defined.

(** X21. A successful [add] makes the view one entry longer. *)
Theorem add_success_increments_len
    (k v : string) (u : option string) (self self' : MetaData) :
  add k v u self = (inr tt, self') ->
  len self' = S (len self).
Proof.
  destruct (blacklist self) as [bl|] eqn:Hbl.
  - rewrite (add_on_filtered_view k v u self bl Hbl).
    destruct (existsb _ (visible_entries bl self)); [discriminate|].
    destruct (Re.re_match bl k) eqn:Hk; [discriminate|].
    destruct (negb (access (item self))); [discriminate|].
    destruct (existsb _ (metadata (item self))); [discriminate|].
    intros H. inversion H. unfold len.
    rewrite (iter_blacklist self bl Hbl), (iter_blacklist _ bl) by exact Hbl.
    simpl metadata. rewrite filter_app, map_app, length_app. simpl.
    rewrite Hk. simpl. lia.
  - unfold add, try_except, bind, read, contains, iter. rewrite Hbl.
    simpl. discriminate.
Qed.

Lemma add_success_increments_len_witness :
  len (set_avus mass_in_kg [mkMeta "mass" "10" (Some "kg"); mkMeta "B" "2" None])
  = S (len mass_in_kg).
Proof.
  apply (add_success_increments_len "B" "2" None mass_in_kg). reflexivity.
Defined.

(** X22. [update] with the [units] argument omitted, of an entry that has
    no units, on a view with a pattern for a blacklist that does not match
    the key and an item the session may modify: when no entry of the item has
    the key and the new value, [update] succeeds, the original entry is gone,
    the replacement (without units) is the last entry and all other entries
    are as before. *)
Theorem update_without_units_replaces_unitless_entry
    (k v nv : string) (self : MetaData) (bl : Re.pattern) :
  blacklist self = Some bl ->
  Re.re_match bl k = false ->
  access (item self) = true ->
  In (mkMeta k v None) (metadata (item self)) ->
  nv <> "" ->
  existsb (fun m => String.eqb (name m) k && String.eqb (value m) nv)
    (metadata (item self)) = false ->
  update k v None (Some nv) None self
  = (inr tt,
     set_avus self
       (remove_first (same_avu k v None) (metadata (item self))
        ++ [mkMeta k nv None])).
Proof.
  intros Hbl Hk Hacc Hin Hnv Hfresh.
  assert (Hnot : forall m, In m (metadata (item self)) ->
                           String.eqb (name m) k && String.eqb (value m) nv = false).
  { intros m Hm.
    destruct (String.eqb (name m) k && String.eqb (value m) nv) eqn:Heq;
      [|reflexivity].
    assert (existsb (fun m => String.eqb (name m) k && String.eqb (value m) nv)
              (metadata (item self)) = true)
      by (apply existsb_exists; eauto).
    congruence. }
  assert (Hchecks : update_checks k v None (Some nv) None self = (inr tt, self)).
  { unfold update_checks, bind, read, ret, raise.
    change (is_None (Some nv) && is_None (@None string)) with false.
    cbv beta iota.
    change (option_eqb (Some nv) (Some "")) with (String.eqb nv "").
    rewrite (proj2 (String.eqb_neq nv "") Hnv). cbv beta iota.
    destruct (contains_queries self bl k v "" Hbl) as (_ & -> & _).
    replace (existsb _ (visible_entries bl self)) with true; [reflexivity|].
    symmetry. apply existsb_exists. exists (mkMeta k v None). split.
    - apply filter_In. split; [exact Hin|]. unfold visible. simpl. now rewrite Hk.
    - simpl. now rewrite !String.eqb_refl. }
  unfold update, bind. rewrite Hchecks. unfold update_add.
  rewrite (add_on_filtered_view k nv None self bl Hbl).
  replace (existsb _ (visible_entries bl self)) with false.
  2:{ symmetry.
      destruct (existsb _ (visible_entries bl self)) eqn:Hex; [|reflexivity].
      apply existsb_exists in Hex as (m & Hm & Hmatch).
      apply filter_In in Hm as [Hm _].
      apply andb_true_iff in Hmatch as [Hmatch _].
      rewrite (Hnot m Hm) in Hmatch. discriminate. }
  replace (existsb (same_avu k nv None) (metadata (item self))) with false.
  2:{ symmetry.
      destruct (existsb (same_avu k nv None) (metadata (item self))) eqn:Hex;
        [|reflexivity].
      apply existsb_exists in Hex as (m & Hm & Hsame).
      unfold same_avu in Hsame. apply andb_true_iff in Hsame as [Hsame _].
      rewrite (Hnot m Hm) in Hsame. discriminate. }
  rewrite Hk, Hacc. simpl negb. cbv iota.
  unfold update_delete. change (truthy None) with false. cbv iota.
  unfold delete, try_except, metadata_remove. cbv beta.
  cbn [item access metadata set_avus with_item with_metadata].
  rewrite Hacc. simpl negb. cbv iota.
  assert (Hold : existsb (same_avu k v (Some "")) (metadata (item self)) = true).
  { apply existsb_exists. exists (mkMeta k v None). split; [exact Hin|].
    unfold same_avu. simpl. now rewrite !String.eqb_refl. }
  rewrite existsb_app, Hold. simpl orb. cbv iota.
  rewrite remove_first_app by exact Hold. reflexivity.
Qed.

Lemma update_without_units_replaces_unitless_entry_witness :
  update "mass" "12" None (Some "13") None mass_in_two_units
  = (inr tt,
     set_avus mass_in_two_units
       [mkMeta "mass" "10" (Some "kg"); mkMeta "mass" "10" (Some "g");
        mkMeta "mass" "13" None]).
Proof.
  apply (update_without_units_replaces_unitless_entry "mass" "12" "13"
           mass_in_two_units default_blacklist);
    try reflexivity; try discriminate.
  right. left. reflexivity.
Defined.
